(** * Fitness Training Manager: the local data store of [src/js/app.js]

    A shallow embedding of the store kept in the global [state] of
    [app.js] (the first, current snapshot of the file, lines 1-597): the
    migration from positional client references to client ids
    ([migrateState]), the identifier generator ([generateId]), loading and
    restoring ([loadState], the restore handler of [setupForms]), the delete
    handler of [renderClients] and the progress and calendar forms.

    Conventions of the model.
    - The store is whatever [JSON.parse] returned, so it is modelled as an
      untyped JavaScript value ([value]), a tree: [JSON.parse] never shares
      nodes, and the program never stores one object in two places.
    - The file has no ['use strict'] directive: a write to a property of a
      primitive is silently ignored.
    - The property names the program reads ([id], [clientId], [clientIndex],
      [clients], [progress], [events], [settings], [theme], [language]) are
      neither array indices nor [length] nor members of a built-in prototype,
      so a property read is a lookup among the own named properties.
      Inherited members matter in one place, the conversion of a value to
      a string ([stringifies]).
    - A string stands for its sequence of code units.
    - Rendering and the DOM are the collaborators of the store; they read the
      store and never write it, and are left out, but for the conversions
      to a string that [applyTheme] and [applyLanguage] make of what they
      are given, which can throw on the way to [saveState()].  The page is
      taken to have the elements that the script looks up. *)

From Stdlib Require Import ZArith Ascii DecimalString DecimalN.
From stdpp Require Import gmap strings list.

Local Open Scope string_scope.

(** ** Values *)

(** The numbers that [JSON.parse] returns: a signed zero, a finite double
    [± mantissa * 2 ^ exponent], or an infinity, which is what a literal
    such as [1e999] overflows to.  [JSON.parse] returns no [NaN], and the
    program does no arithmetic on what it stores. *)
Inductive number :=
| Zero (negative : bool)
| Finite (negative : bool) (mantissa : positive) (exponent : Z)
| Infinity (negative : bool).

Inductive prim :=
| Undefined
| Null
| Bool (b : bool)
| Num (x : number)
| Str (s : string).

(** Arrays carry, besides their elements, the named properties that a write
    such as [client.id = ...] adds to an array object.  Objects are
    association lists in property order. *)
Unset Elimination Schemes.
Inductive value :=
| Prim (p : prim)
| Arr (elems : list value) (props : list (string * value))
| Obj (props : list (string * value)).
Set Elimination Schemes.

Coercion Prim : prim >-> value.

Abbreviation fields := (list (string * value)).

(** The array index [i] with [SameValueZero(i, x)], when there is one: the
    lookup key of [indexToId.get(x)]. *)
Definition index_of_number (x : number) : option nat :=
  match x with
  | Zero _ => Some 0
  | Finite false m e =>
      if (0 <=? e)%Z then Some (Z.to_nat (Z.pos m * 2 ^ e))
      else if (Z.pos m mod 2 ^ (- e) =? 0)%Z
           then Some (Z.to_nat (Z.pos m / 2 ^ (- e)))
           else None
  | Finite true _ _ => None
  | Infinity _ => None
  end.

(** [Boolean(v)], the test of [!v], [v ? a : b] and [.filter(Boolean)]. *)
Definition truthy (v : value) : bool :=
  match v with
  | Prim Undefined | Prim Null => false
  | Prim (Bool b) => b
  | Prim (Num (Zero _)) => false
  | Prim (Num (Finite _ _ _)) => true
  | Prim (Num (Infinity _)) => true
  | Prim (Str s) => negb (String.eqb s "")
  | Arr _ _ | Obj _ => true
  end.

(** Reading a property of [null] or [undefined] throws a [TypeError]. *)
Definition nullish (v : value) : bool :=
  match v with
  | Prim Undefined | Prim Null => true
  | _ => false
  end.

(** [typeof v === 'number'] *)
Definition is_number (v : value) : bool :=
  match v with
  | Prim (Num _) => true
  | _ => false
  end.

Fixpoint assoc_get (k : string) (ps : fields) : value :=
  match ps with
  | [] => Undefined
  | (k', v) :: rest => if String.eqb k k' then v else assoc_get k rest
  end.

Fixpoint assoc_set (k : string) (x : value) (ps : fields) : fields :=
  match ps with
  | [] => [(k, x)]
  | (k', v) :: rest =>
      if String.eqb k k' then (k', x) :: rest else (k', v) :: assoc_set k x rest
  end.

Definition assoc_del (k : string) (ps : fields) : fields :=
  List.filter (fun p => negb (String.eqb k (fst p))) ps.

Definition has_keyb (k : string) (ps : fields) : bool :=
  existsb (fun p => String.eqb k (fst p)) ps.

(** [v.k] for a [v] that is not [null] or [undefined]. *)
Definition get_prop (k : string) (v : value) : value :=
  match v with
  | Obj ps => assoc_get k ps
  | Arr _ ps => assoc_get k ps
  | Prim _ => Undefined
  end.

(** [v.k = x]: an existing property keeps its place, a new one goes last; on
    a primitive the write is dropped. *)
Definition set_prop (k : string) (x : value) (v : value) : value :=
  match v with
  | Obj ps => Obj (assoc_set k x ps)
  | Arr es ps => Arr es (assoc_set k x ps)
  | Prim _ => v
  end.

(** [v] carries an own property named [k]. *)
Definition has_prop (k : string) (v : value) : bool :=
  match v with
  | Obj ps => has_keyb k ps
  | Arr _ ps => has_keyb k ps
  | Prim _ => false
  end.

(** [String(v)] returns, where the alternative is a [TypeError]: the
    conversion that a DOM attribute or property applies to the value it is
    given.  No value of the store is callable, so an own [toString] hides
    the inherited one and leaves nothing that gives a primitive; without
    it an object is ["[object Object]"], and an array is the [join] of
    its elements ([null] and [undefined] as the empty string), or
    ["[object Array]"] when an own [join] hides the inherited one. *)
Fixpoint stringifies (v : value) : bool :=
  match v with
  | Prim _ => true
  | Obj ps => negb (has_keyb "toString" ps)
  | Arr es ps =>
      negb (has_keyb "toString" ps)
      && (has_keyb "join" ps || forallb stringifies es)
  end.

Definition index_key (i : nat) : string :=
  NilEmpty.string_of_uint (Nat.to_uint i).

Fixpoint indexed {A} (f : A -> value) (i : nat) (xs : list A) : fields :=
  match xs with
  | [] => []
  | x :: rest => (index_key i, f x) :: indexed f (S i) rest
  end.

(** The own enumerable properties of [v] in enumeration order: what an
    object spread [{...v}] and a rest pattern [{k, ...rest}] copy. *)
Definition own_props (v : value) : fields :=
  match v with
  | Obj ps => ps
  | Arr es ps => indexed id 0 es ++ ps
  | Prim (Str s) =>
      indexed (fun c => Prim (Str (String c EmptyString))) 0 (String.list_ascii_of_string s)
  | Prim _ => []
  end.

(** [{ ...record, clientId }] *)
Definition spread_with (record : value) (k : string) (x : value) : value :=
  Obj (assoc_set k x (own_props record)).

(** [({ clientIndex, ...rest }) => rest] *)
Definition without (k : string) (record : value) : value :=
  Obj (assoc_del k (own_props record)).

(** ** The identifier generator (lines 107-112) *)

(** The host: [crypto.randomUUID] when the host has it, the clock and the
    random source otherwise, each as the answer to the [k]-th call of
    [generateId]. *)
Record Platform := {
  randomUUID : option (nat -> string);
  now : nat -> N;
  random10000 : nat -> N
}.

Definition decimal (n : N) : string := NilEmpty.string_of_uint (N.to_uint n).

Definition generateId (P : Platform) (prefix : string) (k : nat) : string :=
  match randomUUID P with
  | Some uuid => uuid k
  | None => prefix +:+ "-" +:+ decimal (now P k) +:+ "-" +:+ decimal (random10000 P k)
  end.

(** A UUID is never the empty string. *)
Definition platform_ok (P : Platform) : Prop :=
  forall uuid k, randomUUID P = Some uuid -> uuid k <> "".

(** ** The store and its monad *)

(** The global [state] and the number of identifiers generated so far. *)
Record World := { state : value; calls : nat }.

Inductive completion (A : Type) :=
| Normal (a : A)
| TypeError.
Arguments Normal {A} a.
Arguments TypeError {A}.

(** A computation runs on the world; what it wrote before throwing stays
    written. *)
Definition Js (A : Type) : Type := World -> completion A * World.

Definition ret {A} (a : A) : Js A := fun w => (Normal a, w).

Definition bind {A B} (m : Js A) (f : A -> Js B) : Js B :=
  fun w => match m w with
           | (Normal a, w') => f a w'
           | (TypeError, w') => (TypeError, w')
           end.

Notation "'let*' x ':=' m 'in' k" := (bind m (fun x => k))
  (at level 10, x name, m at level 100, k at level 200).
Notation "m ';;;' k" := (bind m (fun _ => k))
  (at level 62, right associativity).

Definition completed {A} (r : completion A * World) : bool :=
  match fst r with Normal _ => true | TypeError => false end.

(** [state.k = x] *)
Definition assign (k : string) (x : value) : Js unit :=
  fun w => (Normal tt, {| state := set_prop k x (state w); calls := calls w |}).

(** ** The migration engine (lines 114-145) *)

Section Migration.
Variable P : Platform.

(** The callback of [state.clients.map] run over the clients from
    position [index] on.  A client without a truthy [id] is given one in
    place; a [null] client throws at [client.id], and the clients before
    it keep the ids they were given.  The result is: whether the loop
    completed, the clients, [indexToId], and the count of generated
    ids. *)
Fixpoint clients_callback (cs : list value) (index : nat)
    (indexToId : gmap nat value) (k : nat)
    : bool * list value * gmap nat value * nat :=
  match cs with
  | [] => (true, [], indexToId, k)
  | client :: rest =>
      if nullish client then (false, client :: rest, indexToId, k)
      else
        let '(client', k') :=
          if truthy (get_prop "id" client) then (client, k)
          else (set_prop "id" (Str (generateId P "client" k)) client, S k) in
        let '(ok, rest', m, k'') :=
          clients_callback rest (S index)
            (<[index := get_prop "id" client']> indexToId) k' in
        (ok, client' :: rest', m, k'')
  end.

(** Lines 115-122. *)
Definition migrate_clients : Js (gmap nat value) := fun w =>
  match get_prop "clients" (state w) with
  | Arr cs ps =>
      let '(ok, cs', m, k) := clients_callback cs 0 ∅ (calls w) in
      if ok
      then (Normal m, {| state := set_prop "clients" (Arr cs' []) (state w); calls := k |})
      else (TypeError, {| state := set_prop "clients" (Arr cs' ps) (state w); calls := k |})
  | _ => (TypeError, w)
  end.
End Migration.

(** [indexToId.get(key)]: the keys of the map are array indices. *)
Definition map_get (indexToId : gmap nat value) (key : value) : value :=
  match key with
  | Prim (Num x) =>
      match index_of_number x with
      | Some i => default (Prim Undefined) (indexToId !! i)
      | None => Undefined
      end
  | _ => Undefined
  end.

(** The result of the first callback of lines 125-131 and 136-142 on a
    record that is not [null]. *)
Definition resolved (indexToId : gmap nat value) (record : value) : value :=
  if negb (truthy (get_prop "clientId" record))
     && is_number (get_prop "clientIndex" record)
  then
    let clientId := map_get indexToId (get_prop "clientIndex" record) in
    if truthy clientId then spread_with record "clientId" clientId
    else Prim Null
  else record.

(** The callback itself; [None] is the [TypeError] of [record.clientId] on
    [null]. *)
Definition resolve (indexToId : gmap nat value) (record : value) : option value :=
  if nullish record then None else Some (resolved indexToId record).

(** [.map(resolve).filter(Boolean).map(({ clientIndex, ...rest }) => rest)] *)
Definition migrate_records (indexToId : gmap nat value) (rs : list value)
    : option (list value) :=
  out ← mapM (resolve indexToId) rs;
  Some (without "clientIndex" <$> List.filter truthy out).

(** The same pipeline on records none of which is [null]. *)
Definition migrated (indexToId : gmap nat value) (rs : list value) : list value :=
  without "clientIndex" <$> List.filter truthy (resolved indexToId <$> rs).

(** Lines 124-133 with [field = "progress"], lines 135-144 with
    [field = "events"]. *)
Definition migrate_collection (field : string) (indexToId : gmap nat value)
    : Js unit := fun w =>
  match get_prop field (state w) with
  | Arr rs _ =>
      match migrate_records indexToId rs with
      | Some out => assign field (Arr out []) w
      | None => (TypeError, w)
      end
  | _ => (TypeError, w)
  end.

Definition migrateState (P : Platform) : Js unit :=
  let* indexToId := migrate_clients P in
  migrate_collection "progress" indexToId ;;;
  migrate_collection "events" indexToId.

(** ** Loading and restoring *)

(** The initial value of [state] (lines 11-21). *)
Definition default_settings : value :=
  Obj [("theme", Prim (Str "light")); ("language", Prim (Str "en"))].

Definition initial_state : value :=
  Obj [("clients", Arr [] []); ("programs", Arr [] []); ("exercises", Arr [] []);
       ("progress", Arr [] []); ("events", Arr [] []); ("settings", default_settings)].

(** [state.settings.k], the argument of [applyTheme] and [applyLanguage]:
    a [TypeError] when [state.settings] is [null] or [undefined]. *)
Definition read_setting (k : string) : Js value := fun w =>
  let settings := get_prop "settings" (state w) in
  if nullish (state w) || nullish settings then (TypeError, w)
  else (Normal (get_prop k settings), w).

(** [applyTheme(theme)] (lines 206-208) writes nothing to the store;
    [setAttribute] converts [theme] to a string. *)
Definition applyTheme (theme : value) : Js unit := fun w =>
  if stringifies theme then (Normal tt, w) else (TypeError, w).

(** [applyLanguage(lang)] (lines 221-302): its one write to the store is
    [state.settings.language = lang], the first statement; the next one
    gives [lang] to the [value] of the language select, which converts it
    to a string, and the rest updates the texts of the page, whose elements
    the script takes to be there. *)
Definition applyLanguage (lang : value) : Js unit := fun w =>
  let settings := get_prop "settings" (state w) in
  if nullish (state w) || nullish settings then (TypeError, w)
  else
    (assign "settings" (set_prop "language" lang settings) ;;;
     fun w' => if stringifies lang then (Normal tt, w') else (TypeError, w')) w.

(** [applyTheme(state.settings.theme); applyLanguage(state.settings.language)] *)
Definition apply_settings : Js unit :=
  let* theme := read_setting "theme" in
  applyTheme theme ;;;
  let* lang := read_setting "language" in
  applyLanguage lang.

(** What [localStorage.getItem('ftm-state')] holds: nothing (or the empty
    string), a text that [JSON.parse] rejects, or a JSON document. *)
Inductive stored :=
| Absent
| Corrupt
| Document (data : value).

(** Lines 148-161.  The [try] covers the read and the parse only. *)
Definition loadState (P : Platform) (slot : stored) : Js unit :=
  (fun w => match slot with
            | Document data => (Normal tt, {| state := data; calls := calls w |})
            | Absent | Corrupt => (Normal tt, w)
            end) ;;;
  migrateState P ;;;
  apply_settings.

(** How far the restore handler got with the store: [Saved] when it
    reached [saveState()] (line 561); [InvalidBackupFile] when an exception
    before that took it to the [catch], which shows
    [alert('Invalid backup file')] and saves nothing.  After [saveState()]
    the handler calls [renderAll()], still inside the [try]: rendering
    writes nothing to the store, and when it throws the same notice is
    shown over a document that has been saved. *)
Inductive restore_outcome := Saved | InvalidBackupFile.

(** [reader.onload] of lines 553-565, from [JSON.parse] to [saveState()].
    [parsed] is the outcome of [JSON.parse(ev.target.result)]: [None] when
    it throws a [SyntaxError]. *)
Definition replaceState (P : Platform) (parsed : option value) (w : World)
    : restore_outcome * World :=
  match parsed with
  | None => (InvalidBackupFile, w)
  | Some data =>
      match (migrateState P ;;; apply_settings)
              {| state := data; calls := calls w |} with
      | (Normal _, w') => (Saved, w')
      | (TypeError, w') => (InvalidBackupFile, w')
      end
  end.

(** ** The mutation handlers *)

(** [v === p] for a primitive [p].  Two numbers are equal when they have the
    same value, whatever the sign of a zero. *)
Definition number_eqb (x y : number) : bool :=
  match x, y with
  | Zero _, Zero _ => true
  | Finite s m e, Finite s' m' e' =>
      Bool.eqb s s' &&
      (if (e <=? e')%Z then (Z.pos m =? Z.pos m' * 2 ^ (e' - e))%Z
       else (Z.pos m * 2 ^ (e - e') =? Z.pos m')%Z)
  | Infinity s, Infinity s' => Bool.eqb s s'
  | _, _ => false
  end.

Definition strict_eq (v : value) (p : prim) : bool :=
  match v, p with
  | Prim Undefined, Undefined => true
  | Prim Null, Null => true
  | Prim (Bool a), Bool b => Bool.eqb a b
  | Prim (Num x), Num y => number_eqb x y
  | Prim (Str s), Str t => String.eqb s t
  | _, _ => false
  end.

(** [state.field = state.field.filter(x => x.k !== clientId)]: a
    [TypeError] when [state.field] is not an array or holds a [null]. *)
Definition filter_out (field k : string) (clientId : prim) : Js unit := fun w =>
  match get_prop field (state w) with
  | Arr xs _ =>
      if existsb nullish xs then (TypeError, w)
      else assign field
             (Arr (List.filter (fun x => negb (strict_eq (get_prop k x) clientId)) xs) [])
             w
  | _ => (TypeError, w)
  end.

(** The click handler of the delete button (lines 345-351), for a client
    whose [id] is the primitive [clientId]; ids that are objects are
    compared by reference and are outside this model. *)
Definition deleteClient (clientId : prim) : Js unit :=
  filter_out "clients" "id" clientId ;;;
  filter_out "progress" "clientId" clientId ;;;
  filter_out "events" "clientId" clientId.

(** [state.field.push(x)] *)
Definition push (field : string) (x : value) : Js unit := fun w =>
  match get_prop field (state w) with
  | Arr xs ps => assign field (Arr (xs ++ [x]) ps) w
  | _ => (TypeError, w)
  end.

(** The submit handler of the client form (lines 472-479); [name] is the
    trimmed input. *)
Definition addClient (P : Platform) (name age weight : string) : Js unit :=
  if String.eqb name "" then ret tt
  else fun w =>
    if nullish (get_prop "clients" (state w)) then (TypeError, w)
    else
      push "clients"
        (Obj [("id", Prim (Str (generateId P "client" (calls w))));
              ("name", Prim (Str name)); ("age", Prim (Str age));
              ("weight", Prim (Str weight))])
        {| state := state w; calls := S (calls w) |}.

(** The submit handler of the progress form (lines 511-519). *)
Definition addProgressRecord (clientId date weight : string) : Js unit :=
  if String.eqb clientId "" then ret tt
  else if String.eqb date "" then ret tt
  else push "progress"
         (Obj [("clientId", Prim (Str clientId)); ("date", Prim (Str date));
               ("weight", Prim (Str weight))]).

(** The submit handler of the calendar form (lines 526-534); [note] is the
    trimmed input. *)
Definition addEvent (clientId date note : string) : Js unit :=
  if String.eqb clientId "" then ret tt
  else if String.eqb date "" then ret tt
  else push "events"
         (Obj [("clientId", Prim (Str clientId)); ("date", Prim (Str date));
               ("note", Prim (Str note))]).

(** ** Backup *)

(** The properties of an object that [JSON.stringify] writes, each with
    its value as [JSON.parse] reads it back: a property whose value is
    [undefined] is left out. *)
Fixpoint json_fields (json : value -> option value) (ps : fields) : fields :=
  match ps with
  | [] => []
  | (k, x) :: rest =>
      match json x with
      | Some y => (k, y) :: json_fields json rest
      | None => json_fields json rest
      end
  end.

(** What [JSON.parse(JSON.stringify(v))] is, [None] where [JSON.stringify]
    gives [undefined]: a negative zero loses its sign, an infinity is
    written as [null], an [undefined] element becomes [null], and the named
    properties of an array are left out. *)
Fixpoint to_json (v : value) : option value :=
  match v with
  | Prim Undefined => None
  | Prim (Num (Zero _)) => Some (Prim (Num (Zero false)))
  | Prim (Num (Infinity _)) => Some (Prim Null)
  | Prim p => Some (Prim p)
  | Arr es _ => Some (Arr (List.map (fun e => default (Prim Null) (to_json e)) es) [])
  | Obj ps => Some (Obj (json_fields to_json ps))
  end.

(** An array element as it is read back. *)
Definition reread (e : value) : value := default (Prim Null) (to_json e).

(** The backup button (lines 539-547): the document of the file it
    downloads, as [JSON.parse] reads it back. *)
Definition exportState (w : World) : option value := to_json (state w).

(** ** The other handlers of the store *)

(** [state.field.splice(idx, 1)] *)
Definition splice (field : string) (idx : nat) : Js unit := fun w =>
  match get_prop field (state w) with
  | Arr xs ps => assign field (Arr (delete idx xs) ps) w
  | _ => (TypeError, w)
  end.

(** The submit handler of the program form (lines 487-493); [name] is the
    trimmed input and [pieces] are the trimmed pieces of the comma
    separated list, before [.filter(Boolean)]. *)
Definition addProgram (name : string) (pieces : list string) : Js unit :=
  if String.eqb name "" then ret tt
  else push "programs"
         (Obj [("name", Prim (Str name));
               ("exercises",
                Arr ((fun s => Prim (Str s)) <$>
                       List.filter (fun s => negb (String.eqb s "")) pieces) [])]).

(** The submit handler of the exercise form (lines 499-505). *)
Definition addExercise (name muscle : string) : Js unit :=
  if String.eqb name "" then ret tt
  else push "exercises" (Obj [("name", Prim (Str name)); ("muscle", Prim (Str muscle))]).

(** The change handler of the theme select (lines 213-217):
    [state.settings.theme = select.value; applyTheme(select.value)]. *)
Definition changeTheme (theme : string) : Js unit := fun w =>
  let settings := get_prop "settings" (state w) in
  if nullish (state w) || nullish settings then (TypeError, w)
  else (assign "settings" (set_prop "theme" (Str theme) settings) ;;;
        applyTheme (Str theme)) w.

(** The change handler of the language select (lines 307-310). *)
Definition changeLanguage (lang : string) : Js unit := applyLanguage (Str lang).

(** The calls the page makes on the store between two loads: the forms,
    the delete buttons, the restore of a backup and the two selects of the
    settings. *)
Inductive mutation :=
| AddClient (name age weight : string)
| DeleteClient (clientId : prim)
| AddProgram (name : string) (pieces : list string)
| DeleteProgram (idx : nat)
| AddExercise (name muscle : string)
| DeleteExercise (idx : nat)
| AddProgressRecord (clientId date weight : string)
| AddEvent (clientId date note : string)
| DeleteEvent (idx : nat)
| ReplaceState (parsed : option value)
| ChangeTheme (theme : string)
| ChangeLanguage (lang : string).

(** The restore handler catches what is thrown inside it, so it returns
    whatever the file held; the other handlers let a [TypeError] pass. *)
Definition run (P : Platform) (m : mutation) : Js unit :=
  match m with
  | AddClient name age weight => addClient P name age weight
  | DeleteClient clientId => deleteClient clientId
  | AddProgram name pieces => addProgram name pieces
  | DeleteProgram idx => splice "programs" idx
  | AddExercise name muscle => addExercise name muscle
  | DeleteExercise idx => splice "exercises" idx
  | AddProgressRecord clientId date weight => addProgressRecord clientId date weight
  | AddEvent clientId date note => addEvent clientId date note
  | DeleteEvent idx => splice "events" idx
  | ReplaceState parsed => fun w => (Normal tt, snd (replaceState P parsed w))
  | ChangeTheme theme => changeTheme theme
  | ChangeLanguage lang => changeLanguage lang
  end.

(** ** Shapes and invariants of the store *)

(** The elements of [state.field], none when it is not an array. *)
Definition collection (field : string) (st : value) : list value :=
  match get_prop field st with
  | Arr xs _ => xs
  | _ => []
  end.

(** An array without [null] entries: what [.map] and [.filter] with a
    callback that reads a property need in order not to throw. *)
Definition array_ok (v : value) : bool :=
  match v with
  | Arr xs _ => negb (existsb nullish xs)
  | _ => false
  end.

Definition collections_ok (st : value) : bool :=
  array_ok (get_prop "clients" st) && array_ok (get_prop "progress" st)
  && array_ok (get_prop "events" st).

(** The shape the store steps of the restore handler need. *)
Definition well_shaped (st : value) : bool :=
  collections_ok st && negb (nullish (get_prop "settings" st)).

(** The documents on which the restore handler gets as far as
    [saveState()]: of that shape, and with a theme and a language that
    convert to strings. *)
Definition restorable (st : value) : bool :=
  well_shaped st
  && stringifies (get_prop "theme" (get_prop "settings" st))
  && stringifies (get_prop "language" (get_prop "settings" st)).

(** The ids of the clients, for the clients that have a non-empty string
    as [id]. *)
Definition string_id (c : value) : option string :=
  match get_prop "id" c with
  | Prim (Str s) => if String.eqb s "" then None else Some s
  | _ => None
  end.

Definition client_ids (st : value) : list string :=
  omap string_id (collection "clients" st).

(** Invariant 2 for one record: an object whose [clientId] is the id of a
    client and which has no [clientIndex]. *)
Definition record_ok (ids : list string) (r : value) : bool :=
  match r with
  | Obj ps =>
      match assoc_get "clientId" ps with
      | Prim (Str s) => bool_decide (s ∈ ids)
      | _ => false
      end && negb (has_keyb "clientIndex" ps)
  | _ => false
  end.

Definition integrity (st : value) : bool :=
  forallb (record_ok (client_ids st)) (collection "progress" st)
  && forallb (record_ok (client_ids st)) (collection "events" st).

(** A record in the legacy format: no [clientId], a numeric
    [clientIndex]. *)
Definition legacy (r : value) : bool :=
  negb (truthy (get_prop "clientId" r)) && is_number (get_prop "clientIndex" r).

(** A record that already refers to a client, whatever else it carries. *)
Definition refers (ids : list string) (r : value) : bool :=
  match get_prop "clientId" r with
  | Prim (Str s) => bool_decide (s ∈ ids)
  | _ => false
  end.

(** A raw state whose clients have a string for [id] when they have one,
    and whose records are legacy records or refer to a client. *)
Definition id_ok (c : value) : bool :=
  match get_prop "id" c with
  | Prim (Str _) => true
  | v => negb (truthy v)
  end.

Definition raw_ready (st : value) : bool :=
  forallb id_ok (collection "clients" st)
  && forallb (fun r => legacy r || refers (client_ids st) r)
       (collection "progress" st ++ collection "events" st).

(** A client object that has no id yet. *)
Definition lacks_id (c : value) : bool :=
  match c with
  | Prim _ => false
  | _ => negb (truthy (get_prop "id" c))
  end.

(** Invariant 1 for one client: an object with a non-empty string [id]. *)
Definition client_ok (c : value) : bool :=
  match c with
  | Obj _ => match string_id c with Some _ => true | None => false end
  | _ => false
  end.

(** A populated field of the settings: a primitive that is truthy (in the
    data model, the name of a theme or of a language). *)
Definition populated (v : value) : bool :=
  match v with
  | Prim _ => truthy v
  | _ => false
  end.

(** Invariant 4: settings is an object with [theme] and [language]
    populated. *)
Definition settings_ok (v : value) : bool :=
  match v with
  | Obj _ => populated (get_prop "theme" v) && populated (get_prop "language" v)
  | _ => false
  end.

(** The invariants of the store after migration (spec section 3). *)
Definition invariants (st : value) : bool :=
  match st with
  | Obj _ =>
      collections_ok st
      && forallb client_ok (collection "clients" st)
      && bool_decide (NoDup (client_ids st))
      && integrity st
      && settings_ok (get_prop "settings" st)
  | _ => false
  end.

(** A call that hands the store the id of a client it has, or a restore of
    a document that migration brings to referential integrity: its
    collections are arrays without [null] entries, its clients have a
    string for [id] when they have one, and its records are legacy records
    or refer to one of its clients. *)
Definition valid_call (st : value) (m : mutation) : bool :=
  match m with
  | AddProgressRecord clientId _ _ | AddEvent clientId _ _ =>
      String.eqb clientId "" || bool_decide (clientId ∈ client_ids st)
  | ReplaceState (Some data) => collections_ok data && raw_ready data
  | _ => true
  end.

(** ** Persistence, settings and the views that read the store *)

(** [saveState()] (lines 164-170): what [localStorage] holds afterwards, as
    the next [loadState] finds it.  [JSON.stringify] of [undefined] is
    [undefined], which is stored as a text that [JSON.parse] rejects. *)
Definition saveState (w : World) : stored :=
  match to_json (state w) with
  | Some data => Document data
  | None => Corrupt
  end.

(** The records that [renderProgressRecords] (lines 411-423) shows for the
    selected client: none when no client is selected, otherwise
    [state.progress.filter(r => r.clientId === clientId)]. *)
Definition shown_records (clientId : string) : Js (list value) := fun w =>
  if String.eqb clientId "" then (Normal [], w)
  else
    match get_prop "progress" (state w) with
    | Arr rs _ =>
        if existsb nullish rs then (TypeError, w)
        else (Normal (List.filter (fun r => strict_eq (get_prop "clientId" r) (Str clientId)) rs),
              w)
    | _ => (TypeError, w)
    end.

(** [clients.find(client => client.id === clientId)] for a primitive
    [clientId]: the first client with that id; a [null] met before it
    throws. *)
Fixpoint find_client (clientId : prim) (cs : list value) : completion (option value) :=
  match cs with
  | [] => Normal None
  | client :: rest =>
      if nullish client then TypeError
      else if strict_eq (get_prop "id" client) clientId then Normal (Some client)
      else find_client clientId rest
  end.

(** The client name that [renderEvents] shows for an event (line 453):
    [state.clients.find(...)?.name || '']. *)
Definition client_name (clientId : prim) : Js value := fun w =>
  match get_prop "clients" (state w) with
  | Arr cs _ =>
      match find_client clientId cs with
      | Normal (Some client) =>
          let name := get_prop "name" client in
          (Normal (if truthy name then name else Prim (Str "")), w)
      | Normal None => (Normal (Prim (Str "")), w)
      | TypeError => (TypeError, w)
      end
  | _ => (TypeError, w)
  end.

(** ** The handlers of the earlier snapshot (lines 598-1107) *)

(** The number that is the array index [i]. *)
Definition number_of_index (i : nat) : number :=
  match i with
  | O => Zero false
  | S n => Finite false (Pos.of_succ_nat n) 0
  end.

(** The delete handler of the earlier snapshot (lines 875-879), on the
    client shown at position [idx]. *)
Definition legacy_deleteClient (idx : nat) : Js unit :=
  splice "clients" idx ;;;
  filter_out "progress" "clientIndex" (Num (number_of_index idx)) ;;;
  filter_out "events" "clientIndex" (Num (number_of_index idx)).

(** The progress form of the earlier snapshot (lines 1029-1036);
    [selected] is [parseInt] of the select value: [None] for [NaN], the
    position of the chosen client otherwise. *)
Definition legacy_addProgressRecord (selected : option nat) (date weight : string)
    : Js unit :=
  match selected with
  | None => ret tt
  | Some clientIndex =>
      if String.eqb date "" then ret tt
      else push "progress"
             (Obj [("clientIndex", Prim (Num (number_of_index clientIndex)));
                   ("date", Prim (Str date)); ("weight", Prim (Str weight))])
  end.

(** A call on a store that hands it a client id no client has yet; for a
    restore, the ids of the clients are distinct once the migration has
    generated the missing ones. *)
Definition fresh_call (P : Platform) (w : World) (m : mutation) : bool :=
  match m with
  | AddClient name _ _ =>
      String.eqb name ""
      || negb (bool_decide (generateId P "client" (calls w) ∈ client_ids (state w)))
  | ReplaceState (Some data) =>
      bool_decide
        (NoDup (client_ids
                  (state (snd (migrateState P {| state := data; calls := calls w |})))))
  | _ => true
  end.

(** An object that is not an array. *)
Definition plain_object (v : value) : bool :=
  match v with
  | Obj _ => true
  | _ => false
  end.

(** A call whose input has the types of the data model: a restored
    document is an object whose clients are objects and whose settings are
    populated, and a theme or language chosen is not the empty string. *)
Definition typed_call (m : mutation) : bool :=
  match m with
  | ReplaceState (Some data) =>
      plain_object data
      && forallb plain_object (collection "clients" data)
      && settings_ok (get_prop "settings" data)
  | ChangeTheme name | ChangeLanguage name => negb (String.eqb name "")
  | _ => true
  end.

(** The properties of the store that a call assigns or changes in place;
    [None] for a restore of a file that parses, which replaces the store
    as a whole. *)
Definition writes (m : mutation) : option (list string) :=
  match m with
  | AddClient _ _ _ => Some ["clients"]
  | DeleteClient _ => Some ["clients"; "progress"; "events"]
  | AddProgram _ _ | DeleteProgram _ => Some ["programs"]
  | AddExercise _ _ | DeleteExercise _ => Some ["exercises"]
  | AddProgressRecord _ _ _ => Some ["progress"]
  | AddEvent _ _ _ | DeleteEvent _ => Some ["events"]
  | ReplaceState None => Some []
  | ReplaceState (Some _) => None
  | ChangeTheme _ | ChangeLanguage _ => Some ["settings"]
  end.

(** The calls that do not reach [generateId]: all but the client form and
    the restore of a file that parses, which runs the migration. *)
Definition generates_no_id (m : mutation) : bool :=
  match m with
  | AddClient _ _ _ | ReplaceState (Some _) => false
  | _ => true
  end.

(** A string without the separator ['-'] of the fallback identifiers. *)
Fixpoint dash_free (s : string) : bool :=
  match s with
  | EmptyString => true
  | String c rest => negb (Ascii.eqb c "-"%char) && dash_free rest
  end.

(** A client that is an object (or an array), as opposed to a primitive. *)
Definition is_object (v : value) : bool :=
  match v with
  | Prim _ => false
  | _ => true
  end.

(** ** Sample hosts and stores *)

(** A host without [crypto.randomUUID]. *)
Definition plain_host : Platform :=
  {| randomUUID := None;
     now := fun k => (1700000000000 + N.of_nat k)%N;
     random10000 := fun k => (N.of_nat (37 * k + 5) mod 10000)%N |}.

Definition str (s : string) : value := Prim (Str s).
Definition int (n : positive) : value := Prim (Num (Finite false n 0)).

Definition store_with (clients progress events : list value) : value :=
  Obj [("clients", Arr clients []); ("programs", Arr [] []);
       ("exercises", Arr [] []); ("progress", Arr progress []);
       ("events", Arr events []); ("settings", default_settings)].

(** The document [{"clients":[],"programs":[],"exercises":[],"progress":[],
    "events":[]}]: a state document without settings. *)
Definition no_settings_doc : value :=
  Obj [("clients", Arr [] []); ("programs", Arr [] []); ("exercises", Arr [] []);
       ("progress", Arr [] []); ("events", Arr [] [])].

(** The document [{"clients":[],"progress":[],"events":[],
    "settings":{"theme":{"toString":0},"language":"en"}}], whose theme does
    not convert to a string. *)
Definition unreadable_theme_doc : value :=
  Obj [("clients", Arr [] []); ("progress", Arr [] []); ("events", Arr [] []);
       ("settings",
        Obj [("theme", Obj [("toString", Prim (Num (Zero false)))]);
             ("language", Prim (Str "en"))])].

(** A record that carries both a [clientId] and a [clientIndex]. *)
Definition both_fields_record : value :=
  Obj [("clientId", str "c1"); ("clientIndex", Prim (Num (Zero false)));
       ("date", str "2024-01-01")].

Definition both_fields_store : value :=
  store_with [Obj [("id", str "c1"); ("name", str "Ann")]] [both_fields_record] [].

(** A record that carries neither a [clientId] nor a [clientIndex]. *)
Definition orphan_store : value :=
  store_with [] [Obj [("date", str "2024-01-01"); ("weight", str "70")]] [].

(** A document whose progress record names a client that is not there. *)
Definition ghost_store : value :=
  store_with [Obj [("id", str "c1"); ("name", str "Ann")]]
             [Obj [("clientId", str "ghost"); ("date", str "2024-01-01")]] [].

(** A store after migration: two clients, a program, an exercise, a
    progress record and a calendar event. *)
Definition sample_store : value :=
  Obj [("clients",
        Arr [Obj [("id", str "c1"); ("name", str "Ann"); ("age", str "30");
                  ("weight", str "70")];
             Obj [("id", str "c2"); ("name", str "Bob"); ("age", str "");
                  ("weight", str "")]] []);
       ("programs",
        Arr [Obj [("name", str "Strength");
                  ("exercises", Arr [str "squat"; str "row"; str "press"] [])]] []);
       ("exercises", Arr [Obj [("name", str "squat"); ("muscle", str "legs")]] []);
       ("progress",
        Arr [Obj [("clientId", str "c1"); ("date", str "2024-01-01");
                  ("weight", str "70")]] []);
       ("events",
        Arr [Obj [("clientId", str "c2"); ("date", str "2024-02-01");
                  ("note", str "intro")]] []);
       ("settings", default_settings)].

(** A store in the legacy format: clients [A] and [B] without ids, a
    progress record for position 1 and one for position 5. *)
Definition legacy_record : value :=
  Obj [("clientIndex", int 1); ("date", str "2024-01-01"); ("weight", str "70")].

Definition dangling_record : value :=
  Obj [("clientIndex", int 5); ("date", str "2024-01-01")].

Definition legacy_store : value :=
  store_with [Obj [("name", str "A")]; Obj [("name", str "B")]]
             [legacy_record; dangling_record] [].

(** ** Induction on values *)

Section ValueInd.
Variable Q : value -> Prop.
Hypothesis Hprim : forall p, Q (Prim p).
Hypothesis Harr : forall es ps,
  Forall Q es -> Forall (fun kv => Q (snd kv)) ps -> Q (Arr es ps).
Hypothesis Hobj : forall ps, Forall (fun kv => Q (snd kv)) ps -> Q (Obj ps).

Fixpoint value_ind (v : value) : Q v :=
  let elems := fix elems (es : list value) : Forall Q es :=
    match es with
    | [] => @List.Forall_nil _ _
    | e :: rest => @List.Forall_cons _ _ _ _ (value_ind e) (elems rest)
    end in
  let props := fix props (ps : fields) : Forall (fun kv => Q (snd kv)) ps :=
    match ps with
    | [] => @List.Forall_nil _ _
    | kv :: rest => @List.Forall_cons _ _ _ _ (value_ind (snd kv)) (props rest)
    end in
  match v with
  | Prim p => Hprim p
  | Arr es ps => Harr es ps (elems es) (props ps)
  | Obj ps => Hobj ps (props ps)
  end.
End ValueInd.

(** * Properties *)

(** ** Association lists and properties *)

Lemma elem_of_bool_filter {A} (f : A -> bool) (x : A) (l : list A) :
  x ∈ List.filter f l <-> x ∈ l /\ f x = true.
Proof. rewrite !list_elem_of_In. apply filter_In. Qed.

Lemma assoc_get_set_eq k x ps : assoc_get k (assoc_set k x ps) = x.
Proof.
  induction ps as [|[k' v] ps IH]; simpl.
  - by rewrite String.eqb_refl.
  - destruct (String.eqb k k') eqn:E; simpl; by rewrite E.
Qed.

Lemma assoc_get_set_ne k k' x ps :
  k <> k' -> assoc_get k (assoc_set k' x ps) = assoc_get k ps.
Proof.
  intros Hne. induction ps as [|[k2 v] ps IH]; simpl.
  - by apply String.eqb_neq in Hne as ->.
  - destruct (String.eqb k' k2) eqn:E; simpl.
    + apply String.eqb_eq in E as <-. by apply String.eqb_neq in Hne as ->.
    + by rewrite IH.
Qed.

Lemma assoc_set_set k x y ps : assoc_set k x (assoc_set k y ps) = assoc_set k x ps.
Proof.
  induction ps as [|[k' v] ps IH]; simpl.
  - by rewrite String.eqb_refl.
  - destruct (String.eqb k k') eqn:E; simpl; rewrite E; by rewrite ?IH.
Qed.

Lemma assoc_set_same k ps :
  has_keyb k ps = true -> assoc_set k (assoc_get k ps) ps = ps.
Proof.
  induction ps as [|[k' v] ps IH]; simpl; [done|].
  destruct (String.eqb k k') eqn:E; simpl; [done|].
  intros H. by rewrite IH.
Qed.

Lemma has_keyb_set k k' x ps :
  has_keyb k (assoc_set k' x ps) = String.eqb k k' || has_keyb k ps.
Proof.
  induction ps as [|[k2 v] ps IH]; simpl.
  - by rewrite orb_false_r.
  - destruct (String.eqb k' k2) eqn:E; simpl.
    + apply String.eqb_eq in E as <-. by destruct (String.eqb k k').
    + rewrite IH. by destruct (String.eqb k k'), (String.eqb k k2).
Qed.

Lemma assoc_get_present k ps : assoc_get k ps <> Undefined -> has_keyb k ps = true.
Proof.
  induction ps as [|[k' v] ps IH]; simpl; [done|].
  by destruct (String.eqb k k').
Qed.

Lemma has_keyb_del k ps : has_keyb k (assoc_del k ps) = false.
Proof.
  induction ps as [|[k' v] ps IH]; simpl; [done|].
  destruct (String.eqb k k') eqn:E; simpl; [done|]. by rewrite E.
Qed.

Lemma assoc_del_absent k ps : has_keyb k ps = false -> assoc_del k ps = ps.
Proof.
  induction ps as [|[k' v] ps IH]; simpl; [done|].
  destruct (String.eqb k k') eqn:E; simpl; [done|].
  intros H. by rewrite (IH H).
Qed.

Lemma assoc_get_absent k ps : has_keyb k ps = false -> assoc_get k ps = Undefined.
Proof.
  induction ps as [|[k' v] ps IH]; simpl; [done|].
  by destruct (String.eqb k k').
Qed.

Lemma assoc_get_del_ne k k' ps :
  k <> k' -> assoc_get k (assoc_del k' ps) = assoc_get k ps.
Proof.
  intros Hne. induction ps as [|[k2 v] ps IH]; simpl; [done|].
  destruct (String.eqb k' k2) eqn:E; simpl.
  - apply String.eqb_eq in E as <-. by apply String.eqb_neq in Hne as ->.
  - by rewrite IH.
Qed.

Lemma get_set_prop_ne k k' x st :
  k <> k' -> get_prop k (set_prop k' x st) = get_prop k st.
Proof. intros. destruct st; simpl; auto using assoc_get_set_ne. Qed.

Lemma get_set_prop_eq k x st :
  has_prop k st = true -> get_prop k (set_prop k x st) = x.
Proof. destruct st; simpl; [done| |]; intros _; apply assoc_get_set_eq. Qed.

Lemma set_set_prop k x y st : set_prop k x (set_prop k y st) = set_prop k x st.
Proof. destruct st; simpl; by rewrite ?assoc_set_set. Qed.

Lemma set_prop_same k x st :
  has_prop k st = true -> get_prop k st = x -> set_prop k x st = st.
Proof. destruct st; simpl; [done| |]; intros H <-; by rewrite assoc_set_same. Qed.

Lemma has_set_prop k k' x st :
  has_prop k st = true -> has_prop k (set_prop k' x st) = true.
Proof.
  destruct st; simpl; [done| |]; intros H; rewrite has_keyb_set, H; apply orb_true_r.
Qed.

Lemma get_prop_present k st : get_prop k st <> Undefined -> has_prop k st = true.
Proof. destruct st; simpl; [done| |]; apply assoc_get_present. Qed.

Lemma get_prop_array k st xs ps : get_prop k st = Arr xs ps -> has_prop k st = true.
Proof. intros H. apply get_prop_present. by rewrite H. Qed.

Lemma collection_set_ne k k' x st :
  k <> k' -> collection k (set_prop k' x st) = collection k st.
Proof. intros. unfold collection. by rewrite get_set_prop_ne. Qed.

(** ** Deleting a client *)

Lemma number_eqb_refl x : number_eqb x x = true.
Proof.
  destruct x as [|s m e|s]; [done| |by destruct s]. unfold number_eqb.
  rewrite Z.leb_refl, Z.sub_diag, Z.pow_0_r, Z.mul_1_r, Z.eqb_refl. by destruct s.
Qed.

Lemma strict_eq_refl p : strict_eq (Prim p) p = true.
Proof.
  destruct p as [| |b|x|s]; simpl; auto using number_eqb_refl, String.eqb_refl.
  by destruct b.
Qed.

Lemma filter_out_frame field k p w f :
  f <> field ->
  get_prop f (state (snd (filter_out field k p w))) = get_prop f (state w).
Proof.
  intros Hne. unfold filter_out.
  destruct (get_prop field (state w)); simpl; try done.
  destruct (existsb nullish elems); simpl; [done|]. by apply get_set_prop_ne.
Qed.

Lemma filter_out_normal field k p w w' :
  filter_out field k p w = (Normal tt, w') ->
  exists xs ps,
    get_prop field (state w) = Arr xs ps /\ existsb nullish xs = false /\
    w' = {| state := set_prop field
                       (Arr (List.filter (fun x => negb (strict_eq (get_prop k x) p)) xs) [])
                       (state w);
            calls := calls w |}.
Proof.
  unfold filter_out. destruct (get_prop field (state w)) as [|xs ps|] eqn:E; try done.
  destruct (existsb nullish xs) eqn:En; [done|].
  unfold assign. intros [= <-]. by exists xs, ps.
Qed.

Lemma filter_out_collection field k p w w' :
  filter_out field k p w = (Normal tt, w') ->
  collection field (state w') =
  List.filter (fun x => negb (strict_eq (get_prop k x) p)) (collection field (state w)).
Proof.
  intros (xs & ps & E & _ & ->)%filter_out_normal. unfold collection; simpl.
  rewrite get_set_prop_eq by eauto using get_prop_array. by rewrite E.
Qed.

Lemma filter_out_returns field k p w :
  array_ok (get_prop field (state w)) = true ->
  exists w', filter_out field k p w = (Normal tt, w').
Proof.
  unfold filter_out, array_ok. destruct (get_prop field (state w)); try done.
  intros ->%negb_true_iff. eauto.
Qed.

Lemma bind_normal {A B} (m : Js A) (f : A -> Js B) w b w2 :
  bind m f w = (Normal b, w2) ->
  exists a w1, m w = (Normal a, w1) /\ f a w1 = (Normal b, w2).
Proof. unfold bind. destruct (m w) as [[a|] w1]; [eauto|done]. Qed.

Lemma deleteClient_normal p w w3 :
  deleteClient p w = (Normal tt, w3) ->
  exists w1 w2,
    filter_out "clients" "id" p w = (Normal tt, w1) /\
    filter_out "progress" "clientId" p w1 = (Normal tt, w2) /\
    filter_out "events" "clientId" p w2 = (Normal tt, w3).
Proof.
  unfold deleteClient.
  intros ([] & w1 & H1 & ([] & w2 & H2 & H3)%bind_normal)%bind_normal. eauto.
Qed.

(** The delete handler returns exactly on the stores whose three
    collections are arrays without [null] entries. *)
Lemma deleteClient_returns p w :
  collections_ok (state w) = true <-> exists w', deleteClient p w = (Normal tt, w').
Proof.
  unfold collections_ok. rewrite !andb_true_iff. split.
  - intros [[Hc Hp] He].
    destruct (filter_out_returns "clients" "id" p w Hc) as [w1 H1].
    pose proof (filter_out_frame "clients" "id" p w "progress" ltac:(done)) as F1.
    pose proof (filter_out_frame "clients" "id" p w "events" ltac:(done)) as F2.
    rewrite H1 in F1, F2; simpl in F1, F2.
    destruct (filter_out_returns "progress" "clientId" p w1) as [w2 H2]; [by rewrite F1|].
    pose proof (filter_out_frame "progress" "clientId" p w1 "events" ltac:(done)) as F3.
    rewrite H2 in F3; simpl in F3.
    destruct (filter_out_returns "events" "clientId" p w2) as [w3 H3]; [by rewrite F3, F2|].
    exists w3. unfold deleteClient, bind. by rewrite H1, H2.
  - intros [w3 (w1 & w2 & H1 & H2 & H3)%deleteClient_normal].
    pose proof (filter_out_frame "clients" "id" p w "progress" ltac:(done)) as F1.
    pose proof (filter_out_frame "clients" "id" p w "events" ltac:(done)) as F2.
    pose proof (filter_out_frame "progress" "clientId" p w1 "events" ltac:(done)) as F3.
    rewrite H1 in F1, F2; rewrite H2 in F3; simpl in *.
    apply filter_out_normal in H1 as (? & ? & E1 & N1 & _).
    apply filter_out_normal in H2 as (? & ? & E2 & N2 & _).
    apply filter_out_normal in H3 as (? & ? & E3 & N3 & _).
    rewrite <- F2, <- F3, <- F1, E1, E2, E3; simpl. by rewrite N1, N2, N3.
Qed.

Lemma filter_out_collection_ne field k p w f :
  f <> field ->
  collection f (state (snd (filter_out field k p w))) = collection f (state w).
Proof. intros. unfold collection. by rewrite filter_out_frame. Qed.

(** C3. Cascade delete: on a store whose collections are arrays (the stores
    on which the delete handler returns), deleting the client [c] by its id
    returns, [c] is no longer among the clients, and no progress record and
    no calendar event that remains has a [clientId] strictly equal to that
    id. *)
Theorem deleteClient_cascade (w : World) (c : value) (p : prim) :
  collections_ok (state w) = true ->
  c ∈ collection "clients" (state w) ->
  get_prop "id" c = Prim p ->
  exists w',
    deleteClient p w = (Normal tt, w') /\
    (c ∉ collection "clients" (state w')) /\
    forall r,
      r ∈ (collection "progress" (state w') ++ collection "events" (state w'))%list ->
      strict_eq (get_prop "clientId" r) p = false.
Proof.
  intros Hok Hc Hid.
  destruct (proj1 (deleteClient_returns p w) Hok) as [w3 Hrun].
  exists w3. split; [done|].
  destruct (deleteClient_normal _ _ _ Hrun) as (w1 & w2 & H1 & H2 & H3).
  pose proof (filter_out_collection_ne "progress" "clientId" p w1 "clients" ltac:(done)) as Fc2.
  pose proof (filter_out_collection_ne "events" "clientId" p w2 "clients" ltac:(done)) as Fc3.
  pose proof (filter_out_collection_ne "events" "clientId" p w2 "progress" ltac:(done)) as Fp3.
  rewrite H2 in Fc2. rewrite H3 in Fc3, Fp3. simpl in Fc2, Fc3, Fp3.
  split.
  - rewrite Fc3, Fc2, (filter_out_collection _ _ _ _ _ H1).
    intros [_ Hkeep]%elem_of_bool_filter.
    by rewrite Hid, strict_eq_refl in Hkeep.
  - intros r [Hr|Hr]%elem_of_app.
    + rewrite Fp3, (filter_out_collection _ _ _ _ _ H2) in Hr.
      apply elem_of_bool_filter in Hr as [_ Hr]. by apply negb_true_iff.
    + rewrite (filter_out_collection _ _ _ _ _ H3) in Hr.
      apply elem_of_bool_filter in Hr as [_ Hr]. by apply negb_true_iff.
Qed.

Lemma deleteClient_frame_field p w f :
  f <> "clients" -> f <> "progress" -> f <> "events" ->
  get_prop f (state (snd (deleteClient p w))) = get_prop f (state w).
Proof.
  intros Hc Hp He. unfold deleteClient, bind.
  pose proof (filter_out_frame "clients" "id" p w f Hc) as F1.
  destruct (filter_out "clients" "id" p w) as [[[]|] w1]; simpl in F1; [|done].
  pose proof (filter_out_frame "progress" "clientId" p w1 f Hp) as F2.
  destruct (filter_out "progress" "clientId" p w1) as [[[]|] w2]; simpl in F2;
    [|simpl; congruence].
  pose proof (filter_out_frame "events" "clientId" p w2 f He) as F3.
  destruct (filter_out "events" "clientId" p w2) as [[[]|] w3]; simpl in *; congruence.
Qed.

(** C10. Frame of the delete handler: whatever the store and the id, and
    whether the handler returns or throws, the programs, the exercises and
    the settings are exactly what they were; only [clients], [progress] and
    [events] are ever written. *)
Theorem deleteClient_frame (p : prim) (w : World) :
  get_prop "programs" (state (snd (deleteClient p w))) = get_prop "programs" (state w) /\
  get_prop "exercises" (state (snd (deleteClient p w))) = get_prop "exercises" (state w) /\
  get_prop "settings" (state (snd (deleteClient p w))) = get_prop "settings" (state w) /\
  calls (snd (deleteClient p w)) = calls w.
Proof.
  repeat split; try by apply deleteClient_frame_field.
  unfold deleteClient, bind, filter_out, assign.
  repeat (match goal with
          | |- context [match get_prop ?f ?s with _ => _ end] => destruct (get_prop f s)
          | |- context [if existsb ?f ?l then _ else _] => destruct (existsb f l)
          end; simpl; try done).
Qed.

(** ** The identifier generator *)

Lemma generateId_nonempty P prefix k :
  platform_ok P -> generateId P prefix k <> "".
Proof.
  intros HP. unfold generateId. destruct (randomUUID P) as [uuid|] eqn:E.
  - by eapply HP.
  - destruct prefix; discriminate.
Qed.

Lemma generateId_truthy P prefix k :
  platform_ok P -> truthy (Str (generateId P prefix k)) = true.
Proof.
  intros HP. simpl. apply negb_true_iff, String.eqb_neq.
  by apply generateId_nonempty.
Qed.

(** ** The clients pass *)

Section ClientsPass.
Variable P : Platform.

Lemma nullish_set_prop k x c : nullish (set_prop k x c) = nullish c.
Proof. by destruct c. Qed.

Lemma clients_callback_completes cs i m k :
  (clients_callback P cs i m k).1.1.1 = negb (existsb nullish cs).
Proof.
  revert i m k. induction cs as [|c cs IH]; intros i m k; simpl; [done|].
  destruct (nullish c); [done|].
  destruct (truthy (get_prop "id" c)).
  - specialize (IH (S i) (<[i:=get_prop "id" c]> m) k).
    by destruct (clients_callback P cs _ _ _) as [[[??]?]?].
  - specialize (IH (S i) (<[i:=get_prop "id" (set_prop "id" (Str (generateId P "client" k)) c)]> m) (S k)).
    by destruct (clients_callback P cs _ _ _) as [[[??]?]?].
Qed.

Local Ltac again IH E :=
  match goal with
  | |- context [clients_callback _ _ ?i ?m ?k] =>
      let m' := fresh "m" in
      let k' := fresh "k" in
      destruct (IH _ _ _ _ _ _ _ E m k) as (m' & k' & ->); eauto
  end.

(** A second pass over the clients that a first pass returned changes
    none of them and ends the same way. *)
Lemma clients_callback_again cs i m k ok cs' m' k' :
  platform_ok P ->
  clients_callback P cs i m k = (ok, cs', m', k') ->
  forall m2 k2, exists m2' k2',
    clients_callback P cs' i m2 k2 = (ok, cs', m2', k2').
Proof.
  intros HP. revert i m k ok cs' m' k'.
  induction cs as [|c cs IH]; intros i m k ok cs' m' k'; simpl.
  - intros [= <- <- <- <-] m2 k2. simpl. eauto.
  - destruct (nullish c) eqn:En.
    { intros [= <- <- <- <-] m2 k2. simpl. rewrite En. eauto. }
    destruct (truthy (get_prop "id" c)) eqn:Et.
    + destruct (clients_callback P cs _ _ _) as [[[ok1 rest1] m1] k1] eqn:E.
      intros [= <- <- <- <-] m2 k2. simpl. rewrite En, Et.
      again IH E.
    + destruct (clients_callback P cs _ _ _) as [[[ok1 rest1] m1] k1] eqn:E.
      intros [= <- <- <- <-] m2 k2. cbn [clients_callback].
      rewrite nullish_set_prop, En.
      destruct c as [p|es ps|ps]; cbn [get_prop set_prop truthy];
        rewrite ?assoc_get_set_eq, ?generateId_truthy by done; again IH E.
Qed.

(** What [indexToId] holds after the pass: the [id] of the client at each
    position of the sequence, and nothing else new. *)
Lemma clients_callback_map cs i m k cs' m' k' :
  clients_callback P cs i m k = (true, cs', m', k') ->
  length cs' = length cs /\
  forall j, m' !! j =
            if decide (i <= j < i + length cs)
            then get_prop "id" <$> cs' !! (j - i)
            else m !! j.
Proof.
  revert i m k cs' m' k'.
  induction cs as [|c cs IH]; intros i m k cs' m' k'; simpl.
  - intros [= <- <- <-]. split; [done|]. intros j. case_decide; [lia|done].
  - destruct (nullish c); [done|].
    set (pr := if truthy (get_prop "id" c) then (c, k) else _).
    destruct pr as [c1 k1].
    destruct (clients_callback P cs _ _ _) as [[[ok1 rest1] m1] k2] eqn:E.
    intros [= -> <- <- <-].
    destruct (IH _ _ _ _ _ _ E) as [Hlen Hm]. split; [simpl; lia|].
    intros j. rewrite Hm. repeat case_decide; try lia.
    + replace (j - i) with (S (j - S i)) by lia. done.
    + assert (j = i) as -> by lia. rewrite lookup_insert_eq, Nat.sub_diag. done.
    + rewrite lookup_insert_ne by lia. done.
Qed.

(** Clients that all carry a truthy id are left alone. *)
Lemma clients_callback_settled cs i m k :
  forallb (fun c => negb (nullish c) && truthy (get_prop "id" c)) cs = true ->
  exists m', clients_callback P cs i m k = (true, cs, m', k).
Proof.
  revert i m. induction cs as [|c cs IH]; intros i m; simpl; [eauto|].
  intros [[Hn%negb_true_iff Ht]%andb_true_iff Hcs]%andb_true_iff.
  rewrite Hn, Ht.
  destruct (IH (S i) (<[i:=get_prop "id" c]> m) Hcs) as [m' ->]. eauto.
Qed.
End ClientsPass.

(** ** The records pass *)

(** The records that leave the pass when no record is [null]. *)
Lemma mapM_resolve m rs :
  mapM (resolve m) rs =
  if existsb nullish rs then None else Some (resolved m <$> rs).
Proof.
  induction rs as [|r rs IH]; [done|].
  change (mapM (resolve m) (r :: rs))
    with (y ← resolve m r; k ← mapM (resolve m) rs; Some (y :: k)).
  rewrite IH. unfold resolve. simpl. destruct (nullish r); simpl; [done|].
  by destruct (existsb nullish rs).
Qed.

Lemma migrate_records_eq m rs :
  migrate_records m rs =
  if existsb nullish rs then None
  else Some (migrated m rs).
Proof.
  unfold migrate_records, migrated. rewrite mapM_resolve. by destruct (existsb nullish rs).
Qed.

Lemma has_prop_without k r : has_prop k (without k r) = false.
Proof. apply has_keyb_del. Qed.

Lemma without_without k r : without k (without k r) = without k r.
Proof.
  unfold without at 1 3. simpl. f_equal. apply assoc_del_absent, has_keyb_del.
Qed.

Lemma resolved_without m r : resolved m (without "clientIndex" r) = without "clientIndex" r.
Proof.
  unfold resolved.
  replace (get_prop "clientIndex" (without "clientIndex" r)) with (Prim Undefined).
  - by rewrite andb_false_r.
  - symmetry. apply assoc_get_absent, has_keyb_del.
Qed.

(** The records that left one pass leave any later pass as they are. *)
Lemma migrate_records_again m rs :
  migrate_records m (without "clientIndex" <$> rs) = Some (without "clientIndex" <$> rs).
Proof.
  rewrite migrate_records_eq.
  replace (existsb nullish (without "clientIndex" <$> rs)) with false.
  - f_equal. unfold migrated. induction rs as [|r rs IH]; [done|]. simpl.
    rewrite resolved_without. simpl. rewrite without_without. by f_equal.
  - symmetry. apply not_true_iff_false. intros (x & Hx & Hn)%existsb_exists.
    apply list_elem_of_In, list_elem_of_fmap in Hx as (r & -> & _). done.
Qed.

Lemma migrate_collection_frame field m w f :
  f <> field ->
  get_prop f (state (snd (migrate_collection field m w))) = get_prop f (state w).
Proof.
  intros Hne. unfold migrate_collection.
  destruct (get_prop field (state w)); simpl; try done.
  destruct (migrate_records m elems); simpl; [|done]. by apply get_set_prop_ne.
Qed.

Lemma migrate_collection_calls field m w :
  calls (snd (migrate_collection field m w)) = calls w.
Proof.
  unfold migrate_collection.
  destruct (get_prop field (state w)); simpl; try done.
  by destruct (migrate_records m elems).
Qed.

Lemma migrate_collection_normal field m w w' :
  migrate_collection field m w = (Normal tt, w') ->
  exists rs ps,
    get_prop field (state w) = Arr rs ps /\ existsb nullish rs = false /\
    w' = {| state := set_prop field (Arr (migrated m rs) []) (state w);
            calls := calls w |}.
Proof.
  unfold migrate_collection.
  destruct (get_prop field (state w)) as [|rs ps|] eqn:E; try done.
  rewrite migrate_records_eq. destruct (existsb nullish rs) eqn:En; [done|].
  unfold assign. intros [= <-]. by exists rs, ps.
Qed.

Lemma migrate_collection_throws field m w w' :
  migrate_collection field m w = (TypeError, w') ->
  w' = w /\ array_ok (get_prop field (state w)) = false.
Proof.
  unfold migrate_collection, array_ok, assign.
  destruct (get_prop field (state w)) as [|rs ps|] eqn:E; try by intros [= <-].
  rewrite migrate_records_eq. destruct (existsb nullish rs); [by intros [= <-]|done].
Qed.

Lemma migrate_collection_returns field m w :
  array_ok (get_prop field (state w)) = true ->
  exists w', migrate_collection field m w = (Normal tt, w').
Proof.
  unfold migrate_collection, array_ok.
  destruct (get_prop field (state w)) as [|rs ps|]; try done.
  rewrite migrate_records_eq. intros ->%negb_true_iff. unfold assign. eauto.
Qed.

(** Running the pass again on a store whose collection is the one a first
    pass left (or failed on) changes nothing and ends the same way. *)
Lemma migrate_collection_again field m w c w1 m2 w2 :
  migrate_collection field m w = (c, w1) ->
  get_prop field (state w2) = get_prop field (state w1) ->
  migrate_collection field m2 w2 = (c, w2).
Proof.
  intros Hrun Hsame. destruct c as [[]|].
  - apply migrate_collection_normal in Hrun as (rs & ps & E & Hn & ->).
    simpl in Hsame. rewrite get_set_prop_eq in Hsame by eauto using get_prop_array.
    unfold migrated in Hsame. unfold migrate_collection. rewrite Hsame, migrate_records_again.
    unfold assign. rewrite set_prop_same; eauto using get_prop_array.
    by destruct w2.
  - apply migrate_collection_throws in Hrun as [-> Hbad].
    unfold migrate_collection. rewrite Hsame. unfold array_ok in Hbad.
    destruct (get_prop field (state w)) as [|rs ps|]; try done.
    rewrite migrate_records_eq. by apply negb_false_iff in Hbad as ->.
Qed.

(** ** The clients pass on the store *)

Lemma migrate_clients_frame P w f :
  f <> "clients" ->
  get_prop f (state (snd (migrate_clients P w))) = get_prop f (state w).
Proof.
  intros Hne. unfold migrate_clients.
  destruct (get_prop "clients" (state w)) as [|cs ps|]; simpl; try done.
  destruct (clients_callback P cs 0 ∅ (calls w)) as [[[[] cs'] m] k]; simpl;
    by apply get_set_prop_ne.
Qed.

Lemma migrate_clients_again P w c w1 w2 :
  platform_ok P ->
  migrate_clients P w = (c, w1) ->
  get_prop "clients" (state w2) = get_prop "clients" (state w1) ->
  exists c2 w3,
    migrate_clients P w2 = (c2, w3) /\ state w3 = state w2 /\
    completed (c2, w3) = completed (c, w1).
Proof.
  intros HP Hrun Hsame. unfold migrate_clients in Hrun |- *.
  destruct (get_prop "clients" (state w)) as [|cs ps|] eqn:E.
  - injection Hrun as <- <-. rewrite Hsame, E. eauto.
  - destruct (clients_callback P cs 0 ∅ (calls w)) as [[[ok cs'] m] k] eqn:Ec.
    destruct (clients_callback_again P _ _ _ _ _ _ _ _ HP Ec ∅ (calls w2))
      as (m2 & k2 & Ec2).
    assert (has_prop "clients" (state w) = true) as Hhas by eauto using get_prop_array.
    destruct ok; injection Hrun as <- <-; simpl in Hsame;
      rewrite get_set_prop_eq in Hsame by done; rewrite Hsame, Ec2;
      eexists _, _; (split; [done|]); simpl;
      (split; [|done]); apply set_prop_same; eauto using get_prop_array.
  - injection Hrun as <- <-. rewrite Hsame, E. eauto.
Qed.

(** ** Migration as a whole *)

Lemma migrateState_frame P w f :
  f <> "clients" -> f <> "progress" -> f <> "events" ->
  get_prop f (state (snd (migrateState P w))) = get_prop f (state w).
Proof.
  intros Hc Hp He. unfold migrateState, bind.
  pose proof (migrate_clients_frame P w f Hc) as F1.
  destruct (migrate_clients P w) as [[m|] w1]; simpl in F1; [|done].
  pose proof (migrate_collection_frame "progress" m w1 f Hp) as F2.
  destruct (migrate_collection "progress" m w1) as [[[]|] w2]; simpl in F2;
    [|simpl; congruence].
  pose proof (migrate_collection_frame "events" m w2 f He) as F3.
  destruct (migrate_collection "events" m w2) as [[[]|] w3]; simpl in *; congruence.
Qed.

(** C2. Idempotent migration: for every raw store, on a host whose UUIDs
    are not empty, running [migrateState] on the store that a first run left
    leaves that store as it is, and ends as the first run did (normally, or
    with the same [TypeError]). *)
Theorem migrateState_idempotent (P : Platform) (w : World) :
  platform_ok P ->
  state (snd (migrateState P (snd (migrateState P w)))) = state (snd (migrateState P w)) /\
  completed (migrateState P (snd (migrateState P w))) = completed (migrateState P w).
Proof.
  intros HP.
  destruct (migrate_clients P w) as [[m|] w1] eqn:E1.
  - destruct (migrate_collection "progress" m w1) as [[[]|] w2] eqn:E2.
    + destruct (migrate_collection "events" m w2) as [c3 w3] eqn:E3.
      assert (migrateState P w = (c3, w3)) as R1
        by (unfold migrateState, bind; by rewrite E1, E2, E3).
      pose proof (migrate_collection_frame "progress" m w1 "clients" ltac:(done)) as Fc2.
      pose proof (migrate_collection_frame "events" m w2 "clients" ltac:(done)) as Fc3.
      pose proof (migrate_collection_frame "events" m w2 "progress" ltac:(done)) as Fp3.
      rewrite E2 in Fc2; rewrite E3 in Fc3, Fp3; simpl in Fc2, Fc3, Fp3.
      destruct (migrate_clients_again P w _ w1 w3 HP E1) as (c & w4 & E4 & S4 & K4);
        [congruence|].
      destruct c as [m2|]; [|done].
      assert (migrate_collection "progress" m2 w4 = (Normal tt, w4)) as E5.
      { eapply migrate_collection_again; [exact E2|]. congruence. }
      assert (migrate_collection "events" m2 w4 = (c3, w4)) as E6.
      { eapply migrate_collection_again; [exact E3|]. congruence. }
      assert (migrateState P w3 = (c3, w4)) as R2
        by (unfold migrateState, bind; by rewrite E4, E5, E6).
      rewrite R1. simpl. by rewrite R2.
    + assert (migrateState P w = (TypeError, w2)) as R1
        by (unfold migrateState, bind; by rewrite E1, E2).
      apply migrate_collection_throws in E2 as E2'. destruct E2' as [-> _].
      destruct (migrate_clients_again P w _ w1 w1 HP E1) as (c & w4 & E4 & S4 & K4);
        [done|].
      destruct c as [m2|]; [|done].
      assert (migrate_collection "progress" m2 w4 = (TypeError, w4)) as E5.
      { eapply migrate_collection_again; [exact E2|]. congruence. }
      assert (migrateState P w1 = (TypeError, w4)) as R2
        by (unfold migrateState, bind; by rewrite E4, E5).
      rewrite R1. simpl. by rewrite R2.
  - assert (migrateState P w = (TypeError, w1)) as R1
      by (unfold migrateState, bind; by rewrite E1).
    destruct (migrate_clients_again P w _ w1 w1 HP E1) as (c & w4 & E4 & S4 & K4);
      [done|].
    destruct c as [m2|]; [done|].
    assert (migrateState P w1 = (TypeError, w4)) as R2
      by (unfold migrateState, bind; by rewrite E4).
    rewrite R1. simpl. by rewrite R2.
Qed.

Lemma migrate_clients_completed P w :
  completed (migrate_clients P w) = array_ok (get_prop "clients" (state w)).
Proof.
  unfold migrate_clients, completed.
  destruct (get_prop "clients" (state w)) as [|cs ps|]; try done. simpl.
  pose proof (clients_callback_completes P cs 0 ∅ (calls w)) as H.
  destruct (clients_callback P cs 0 ∅ (calls w)) as [[[ok cs'] m] k]. simpl in H.
  rewrite <- H. by destruct ok.
Qed.

Lemma migrate_collection_completed field m w :
  completed (migrate_collection field m w) = array_ok (get_prop field (state w)).
Proof.
  unfold migrate_collection, completed, assign.
  destruct (get_prop field (state w)) as [|rs ps|]; try done. simpl.
  rewrite migrate_records_eq. by destruct (existsb nullish rs).
Qed.

(** Migration completes exactly on the stores whose three collections are
    arrays without [null] entries. *)
Lemma migrateState_completed P w :
  completed (migrateState P w) = collections_ok (state w).
Proof.
  unfold collections_ok.
  rewrite <- (migrate_clients_completed P w).
  pose proof (migrate_clients_frame P w "progress" ltac:(done)) as Fp.
  pose proof (migrate_clients_frame P w "events" ltac:(done)) as Fe.
  unfold migrateState, bind.
  destruct (migrate_clients P w) as [[m|] w1]; simpl in *; [|done].
  rewrite <- Fp, <- Fe, <- (migrate_collection_completed "progress" m w1).
  pose proof (migrate_collection_frame "progress" m w1 "events" ltac:(done)) as Fe2.
  destruct (migrate_collection "progress" m w1) as [[[]|] w2]; simpl in *; [|done].
  rewrite <- Fe2, <- (migrate_collection_completed "events" m w2).
  by destruct (migrate_collection "events" m w2) as [[[]|] w3].
Qed.

Lemma migrateState_returns P w :
  collections_ok (state w) = true -> exists w', migrateState P w = (Normal tt, w').
Proof.
  rewrite <- (migrateState_completed P w). unfold completed.
  destruct (migrateState P w) as [[[]|] w']; [eauto|done].
Qed.

(** ** Settings *)

(** C8 does not hold as stated: a stored document without settings still has
    none after migration, and loading or restoring it fails at the read of
    [state.settings.theme]. *)
Lemma settings_default_counterexample :
  get_prop "settings" no_settings_doc = Undefined /\
  migrateState plain_host {| state := no_settings_doc; calls := 0 |}
    = (Normal tt, {| state := no_settings_doc; calls := 0 |}) /\
  get_prop "settings"
    (state (snd (migrateState plain_host {| state := no_settings_doc; calls := 0 |})))
    <> default_settings /\
  loadState plain_host (Document no_settings_doc) {| state := initial_state; calls := 0 |}
    = (TypeError, {| state := no_settings_doc; calls := 0 |}) /\
  replaceState plain_host (Some no_settings_doc) {| state := initial_state; calls := 0 |}
    = (InvalidBackupFile, {| state := no_settings_doc; calls := 0 |}).
Proof. repeat split; done. Qed.

(** C8, amended. The migration never reads or writes settings: after
    [migrateState], whether it completed or threw, [state.settings] is what
    the raw state had, so a missing settings object stays missing.  The
    defaults [{theme: "light", language: "en"}] are those of the initial
    state, which is the store after a load that finds nothing it can
    parse. *)
Theorem migrateState_keeps_settings (P : Platform) (w : World) :
  get_prop "settings" (state (snd (migrateState P w))) = get_prop "settings" (state w) /\
  get_prop "settings" initial_state = default_settings /\
  loadState P Absent {| state := initial_state; calls := calls w |}
    = (Normal tt, {| state := initial_state; calls := calls w |}) /\
  loadState P Corrupt {| state := initial_state; calls := calls w |}
    = (Normal tt, {| state := initial_state; calls := calls w |}).
Proof. split; [by apply migrateState_frame|]. repeat split. Qed.

(** ** Restore *)

Lemma apply_settings_throws w :
  nullish (get_prop "settings" (state w)) = true ->
  apply_settings w = (TypeError, w).
Proof.
  intros H. unfold apply_settings, bind, read_setting. by rewrite H, orb_true_r.
Qed.

(** What [applyTheme] and [applyLanguage] do with settings that are there:
    the theme is converted first, then the language is written back and
    converted. *)
Lemma apply_settings_eq w :
  nullish (state w) = false ->
  nullish (get_prop "settings" (state w)) = false ->
  apply_settings w
  = if stringifies (get_prop "theme" (get_prop "settings" (state w)))
    then (if stringifies (get_prop "language" (get_prop "settings" (state w)))
          then Normal tt else TypeError,
          {| state := set_prop "settings"
                        (set_prop "language"
                           (get_prop "language" (get_prop "settings" (state w)))
                           (get_prop "settings" (state w)))
                        (state w);
             calls := calls w |})
    else (TypeError, w).
Proof.
  intros Hs Hset. unfold apply_settings, bind, read_setting, applyTheme.
  rewrite Hs, Hset. cbn [orb].
  destruct (stringifies (get_prop "theme" _)); [|done].
  rewrite Hs, Hset. cbn [orb]. unfold applyLanguage, bind, assign.
  rewrite Hs, Hset. cbn [orb state calls].
  by destruct (stringifies (get_prop "language" _)).
Qed.

(** Settings that hold their [language] are written back as they are. *)
Lemma apply_settings_state w :
  state (snd (apply_settings w)) = state w \/
  (has_prop "language" (get_prop "settings" (state w)) = false /\
   state (snd (apply_settings w))
   = set_prop "settings"
       (set_prop "language" Undefined (get_prop "settings" (state w))) (state w)).
Proof.
  destruct (nullish (state w) || nullish (get_prop "settings" (state w))) eqn:Hn.
  { left. unfold apply_settings, bind, read_setting. by rewrite Hn. }
  apply orb_false_iff in Hn as [Hs Hset]. rewrite apply_settings_eq by done.
  destruct (stringifies (get_prop "theme" _)); [|by left]. cbn [snd state].
  destruct (has_prop "language" (get_prop "settings" (state w))) eqn:Hl.
  - left. rewrite (set_prop_same "language") by done.
    apply set_prop_same; [|done]. apply get_prop_present.
    by destruct (get_prop "settings" (state w)) as [[]| |].
  - right. split; [done|]. do 2 f_equal.
    destruct (get_prop "settings" (state w)) as [| |]; simpl in *; try done;
      by apply assoc_get_absent.
Qed.

Lemma changeTheme_eq theme w :
  changeTheme theme w
  = if nullish (state w) || nullish (get_prop "settings" (state w)) then (TypeError, w)
    else (Normal tt,
          {| state := set_prop "settings"
                        (set_prop "theme" (Str theme) (get_prop "settings" (state w)))
                        (state w);
             calls := calls w |}).
Proof. unfold changeTheme. by destruct (_ || _). Qed.

Lemma changeLanguage_eq lang w :
  changeLanguage lang w
  = if nullish (state w) || nullish (get_prop "settings" (state w)) then (TypeError, w)
    else (Normal tt,
          {| state := set_prop "settings"
                        (set_prop "language" (Str lang) (get_prop "settings" (state w)))
                        (state w);
             calls := calls w |}).
Proof. unfold changeLanguage, applyLanguage. by destruct (_ || _). Qed.

Lemma apply_settings_frame w f :
  f <> "settings" ->
  get_prop f (state (snd (apply_settings w))) = get_prop f (state w).
Proof.
  intros Hf. destruct (apply_settings_state w) as [-> | [_ ->]]; [done|].
  by apply get_set_prop_ne.
Qed.

Lemma changeTheme_frame theme w f :
  f <> "settings" ->
  get_prop f (state (snd (changeTheme theme w))) = get_prop f (state w).
Proof.
  intros Hf. rewrite changeTheme_eq. destruct (_ || _); [done|].
  by apply get_set_prop_ne.
Qed.

Lemma changeLanguage_frame lang w f :
  f <> "settings" ->
  get_prop f (state (snd (changeLanguage lang w))) = get_prop f (state w).
Proof.
  intros Hf. rewrite changeLanguage_eq. destruct (_ || _); [done|].
  by apply get_set_prop_ne.
Qed.

(** After a migration that completes, the restore handler has only the
    settings left to apply. *)
Lemma replaceState_snd P data w w1 :
  migrateState P {| state := data; calls := calls w |} = (Normal tt, w1) ->
  snd (replaceState P (Some data) w) = snd (apply_settings w1).
Proof.
  intros H. unfold replaceState, bind. rewrite H.
  by destruct (apply_settings w1) as [[[]|] w2].
Qed.

(** C1 does not hold as stated: the document [{}] is well-formed JSON of a
    malformed shape; restoring it shows the failure notice, and the store
    is then the document, not the store from before the call. *)
Lemma replaceState_counterexample :
  replaceState plain_host (Some (Obj [])) {| state := initial_state; calls := 0 |}
    = (InvalidBackupFile, {| state := Obj []; calls := 0 |}) /\
  state (snd (replaceState plain_host (Some (Obj []))
                {| state := initial_state; calls := 0 |}))
    <> initial_state.
Proof. split; done. Qed.

(** C1, amended. When the serialized form cannot be parsed, the restore
    fails with the invalid-backup notice and the store is exactly as before.
    When it parses to a document of a malformed shape (a collection among
    clients, progress and events that is not an array of non-null entries,
    or no settings), the restore fails with the same notice, but the store
    has been replaced: it is the parsed document, migrated as far as the
    migration got. *)
Theorem replaceState_failure (P : Platform) (w : World) :
  replaceState P None w = (InvalidBackupFile, w) /\
  forall data,
    well_shaped data = false ->
    fst (replaceState P (Some data) w) = InvalidBackupFile /\
    state (snd (replaceState P (Some data) w))
      = state (snd (migrateState P {| state := data; calls := calls w |})).
Proof.
  split; [done|]. intros data Hbad. unfold replaceState, bind.
  pose proof (migrateState_completed P {| state := data; calls := calls w |}) as Hc.
  pose proof (migrateState_frame P {| state := data; calls := calls w |} "settings"
                ltac:(done) ltac:(done) ltac:(done)) as Hs.
  unfold completed in Hc.
  destruct (migrateState P _) as [[[]|] w1]; simpl in *; [|done].
  unfold well_shaped in Hbad. rewrite <- Hc in Hbad. simpl in Hbad.
  apply negb_false_iff in Hbad. rewrite <- Hs in Hbad.
  by rewrite apply_settings_throws.
Qed.

(** ** Property names that are not array indices *)

Lemma index_key_clientId i : index_key i <> "clientId".
Proof. unfold index_key. by destruct (Nat.to_uint i). Qed.

Lemma index_key_clientIndex i : index_key i <> "clientIndex".
Proof. unfold index_key. by destruct (Nat.to_uint i). Qed.

Lemma assoc_get_indexed {A} (f : A -> value) k i xs ps :
  (forall j, index_key j <> k) ->
  assoc_get k (indexed f i xs ++ ps) = assoc_get k ps.
Proof.
  intros Hk. revert i. induction xs as [|x xs IH]; intros i; simpl; [done|].
  specialize (Hk i). apply not_eq_sym, String.eqb_neq in Hk. by rewrite Hk.
Qed.

Lemma assoc_get_own_props k r :
  (forall j, index_key j <> k) -> assoc_get k (own_props r) = get_prop k r.
Proof.
  intros Hk. destruct r as [[| | | |s]|es ps|ps]; simpl; try done.
  - rewrite <- (app_nil_r (indexed _ _ _)). by rewrite assoc_get_indexed.
  - by rewrite assoc_get_indexed.
Qed.

Lemma get_without_ne k k' r :
  (forall j, index_key j <> k) -> k <> k' ->
  get_prop k (without k' r) = get_prop k r.
Proof.
  intros Hk Hne. simpl. by rewrite assoc_get_del_ne, assoc_get_own_props.
Qed.

Lemma get_spread_eq r k x : get_prop k (spread_with r k x) = x.
Proof. apply assoc_get_set_eq. Qed.

Lemma get_spread_ne k k' r x :
  (forall j, index_key j <> k) -> k <> k' ->
  get_prop k (spread_with r k' x) = get_prop k r.
Proof.
  intros Hk Hne. simpl. by rewrite assoc_get_set_ne, assoc_get_own_props.
Qed.

(** ** The store after a migration that completes *)

Lemma collection_set_eq k xs st :
  has_prop k st = true -> collection k (set_prop k (Arr xs []) st) = xs.
Proof. intros H. unfold collection. by rewrite get_set_prop_eq. Qed.

Lemma collection_set_eq' k xs ps st :
  has_prop k st = true -> collection k (set_prop k (Arr xs ps) st) = xs.
Proof. intros H. unfold collection. by rewrite get_set_prop_eq. Qed.

Lemma array_ok_collection k st :
  array_ok (get_prop k st) = true ->
  exists ps, get_prop k st = Arr (collection k st) ps /\
             existsb nullish (collection k st) = false.
Proof.
  unfold collection, array_ok. destruct (get_prop k st) as [|xs ps|]; try done.
  intros ->%negb_true_iff. eauto.
Qed.

Lemma migrateState_run P w :
  collections_ok (state w) = true ->
  exists cs' m k',
    clients_callback P (collection "clients" (state w)) 0 ∅ (calls w) = (true, cs', m, k') /\
    migrateState P w =
    (Normal tt,
     {| state :=
          set_prop "events" (Arr (migrated m (collection "events" (state w))) [])
            (set_prop "progress" (Arr (migrated m (collection "progress" (state w))) [])
               (set_prop "clients" (Arr cs' []) (state w)));
        calls := k' |}).
Proof.
  unfold collections_ok. rewrite !andb_true_iff. intros [[Hc Hp] He].
  destruct (array_ok_collection _ _ Hc) as (cps & Ec & Nc).
  destruct (array_ok_collection _ _ Hp) as (pps & Ep & Np).
  destruct (array_ok_collection _ _ He) as (eps & Ee & Ne).
  pose proof (clients_callback_completes P (collection "clients" (state w)) 0 ∅ (calls w)) as Hok.
  destruct (clients_callback P _ 0 ∅ (calls w)) as [[[ok cs'] m] k'] eqn:Ecb.
  simpl in Hok. rewrite Nc in Hok. simpl in Hok. subst ok.
  exists cs', m, k'. split; [done|].
  unfold migrateState, bind, migrate_clients. rewrite Ec, Ecb.
  unfold migrate_collection at 1. simpl.
  rewrite get_set_prop_ne, Ep, migrate_records_eq, Np by done.
  unfold assign, migrate_collection. simpl.
  by rewrite !get_set_prop_ne, Ee, migrate_records_eq, Ne by done.
Qed.

Lemma migrateState_collections P w w' :
  migrateState P w = (Normal tt, w') ->
  exists cs' m,
    clients_callback P (collection "clients" (state w)) 0 ∅ (calls w)
      = (true, cs', m, calls w') /\
    collection "clients" (state w') = cs' /\
    collection "progress" (state w') = migrated m (collection "progress" (state w)) /\
    collection "events" (state w') = migrated m (collection "events" (state w)).
Proof.
  intros Hrun.
  assert (collections_ok (state w) = true) as Hok.
  { rewrite <- (migrateState_completed P w), Hrun. done. }
  destruct (migrateState_run P w Hok) as (cs' & m & k' & Ecb & Hrun').
  rewrite Hrun' in Hrun. injection Hrun as <-. exists cs', m. split; [done|].
  unfold collections_ok in Hok. rewrite !andb_true_iff in Hok.
  destruct Hok as [[Hc Hp] He].
  destruct (array_ok_collection _ _ Hc) as (cps & Ec & _).
  destruct (array_ok_collection _ _ Hp) as (pps & Ep & _).
  destruct (array_ok_collection _ _ He) as (eps & Ee & _).
  simpl. repeat split.
  - rewrite !collection_set_ne by done. apply collection_set_eq.
    eauto using get_prop_array.
  - rewrite collection_set_ne by done. apply collection_set_eq.
    apply has_set_prop. eauto using get_prop_array.
  - apply collection_set_eq. do 2 apply has_set_prop. eauto using get_prop_array.
Qed.

(** ** Legacy references *)

Lemma get_set_prop_object k x c :
  lacks_id c = true -> get_prop k (set_prop k x c) = x.
Proof. destruct c; simpl; [done| |]; intros _; apply assoc_get_set_eq. Qed.

(** Clients that have no id each take the next generated id, in order. *)
Lemma clients_callback_fresh P cs i m k :
  forallb lacks_id cs = true ->
  exists cs' m',
    clients_callback P cs i m k = (true, cs', m', k + length cs) /\
    forall j c, cs !! j = Some c ->
      cs' !! j = Some (set_prop "id" (Str (generateId P "client" (k + j))) c).
Proof.
  revert i m k. induction cs as [|c cs IH]; intros i m k; simpl.
  - intros _. exists [], m. rewrite Nat.add_0_r. done.
  - intros [Hc Hcs]%andb_true_iff.
    assert (nullish c = false) as -> by (by destruct c as [[]| |]).
    assert (truthy (get_prop "id" c) = false) as ->.
    { destruct c; [done| |]; by apply negb_true_iff in Hc. }
    match goal with
    | |- context [clients_callback P cs (S i) ?m0 (S k)] =>
        destruct (IH (S i) m0 (S k) Hcs) as (cs' & m' & -> & Hl)
    end.
    eexists _, _. split.
    + by replace (k + S (length cs)) with (S k + length cs) by lia.
    + intros [|j] c0; simpl.
      * intros [= <-]. by rewrite Nat.add_0_r.
      * intros H. rewrite (Hl _ _ H).
        by replace (k + S j) with (S k + j) by lia.
Qed.

Lemma elem_of_migrated m rs r :
  r ∈ rs -> truthy (resolved m r) = true ->
  without "clientIndex" (resolved m r) ∈ migrated m rs.
Proof.
  intros Hr Ht. unfold migrated. apply list_elem_of_fmap. eexists. split; [done|].
  apply elem_of_bool_filter. split; [|done]. apply list_elem_of_fmap. eauto.
Qed.

(** C5. Legacy reference resolution: on a host whose UUIDs are not empty,
    take a raw store whose collections are arrays and whose clients are
    objects without ids, and in its progress records (or calendar events) a
    record with no [clientId] and a numeric [clientIndex] that is a position
    [i] of the client sequence.  Then migration completes, the client at
    position [i] has the [i]-th freshly generated id, and the migrated
    collection holds the record with that id as [clientId] and with no
    [clientIndex] field. *)
Theorem legacy_reference_resolved (P : Platform) (w : World) (field : string)
    (r : value) (x : number) (i : nat) :
  platform_ok P ->
  collections_ok (state w) = true ->
  forallb lacks_id (collection "clients" (state w)) = true ->
  field = "progress" \/ field = "events" ->
  r ∈ collection field (state w) ->
  truthy (get_prop "clientId" r) = false ->
  get_prop "clientIndex" r = Num x ->
  index_of_number x = Some i ->
  i < length (collection "clients" (state w)) ->
  let fresh := Prim (Str (generateId P "client" (calls w + i))) in
  let r' := without "clientIndex" (spread_with r "clientId" fresh) in
  exists w' c',
    migrateState P w = (Normal tt, w') /\
    collection "clients" (state w') !! i = Some c' /\
    get_prop "id" c' = fresh /\
    r' ∈ collection field (state w') /\
    get_prop "clientId" r' = fresh /\
    has_prop "clientIndex" r' = false.
Proof.
  intros HP Hok Hlack Hfield Hr Hcid Hidx Hi Hlt fresh r'.
  destruct (migrateState_returns P w Hok) as [w' Hrun]. exists w'.
  destruct (migrateState_collections P w w' Hrun) as (cs' & m & Ecb & Hc & Hp & He).
  destruct (clients_callback_fresh P _ 0 ∅ (calls w) Hlack) as (cs2 & m2 & Ecb2 & Hl).
  rewrite Ecb in Ecb2. injection Ecb2 as <- <- Hcalls.
  destruct (lookup_lt_is_Some_2 _ _ Hlt) as [c Hci].
  exists (set_prop "id" fresh c).
  assert (lacks_id c = true) as Hlc.
  { rewrite forallb_forall in Hlack. apply Hlack, list_elem_of_In.
    eauto using list_elem_of_lookup_2. }
  assert (m !! i = Some fresh) as Hm.
  { destruct (clients_callback_map P _ _ _ _ _ _ _ Ecb) as [_ Hmap].
    rewrite Hmap. rewrite decide_True by lia.
    rewrite Nat.sub_0_r, (Hl _ _ Hci). simpl. f_equal.
    by apply get_set_prop_object. }
  assert (resolved m r = spread_with r "clientId" fresh) as Hres.
  { unfold resolved. rewrite Hcid, Hidx. simpl. rewrite Hi, Hm. simpl.
    pose proof (generateId_truthy P "client" (calls w + i) HP) as Ht.
    simpl in Ht. by rewrite Ht. }
  split; [done|]. split; [by rewrite Hc; apply Hl|].
  split; [by apply get_set_prop_object|]. split.
  - subst r'. rewrite <- Hres.
    destruct Hfield as [-> | ->]; [rewrite Hp|rewrite He];
      (apply elem_of_migrated; [done|by rewrite Hres]).
  - split; [|apply has_prop_without]. subst r'.
    rewrite get_without_ne by (done || apply index_key_clientId).
    apply get_spread_eq.
Qed.

Lemma assoc_set_comm k1 k2 a b ps :
  k1 <> k2 -> has_keyb k1 ps = true ->
  assoc_set k1 a (assoc_set k2 b ps) = assoc_set k2 b (assoc_set k1 a ps).
Proof.
  intros Hne. induction ps as [|[k v] ps IH]; simpl; [done|].
  destruct (String.eqb k1 k) eqn:E1, (String.eqb k2 k) eqn:E2; simpl;
    rewrite ?E1, ?E2; try done.
  - apply String.eqb_eq in E1, E2. congruence.
  - intros H. by rewrite IH.
Qed.

Lemma set_prop_comm k1 k2 a b st :
  k1 <> k2 -> has_prop k1 st = true ->
  set_prop k1 a (set_prop k2 b st) = set_prop k2 b (set_prop k1 a st).
Proof.
  intros Hne. destruct st; simpl; [done| |]; intros H; by rewrite assoc_set_comm.
Qed.

Lemma resolved_dangling m r x :
  truthy (get_prop "clientId" r) = false ->
  get_prop "clientIndex" r = Num x ->
  (forall i, index_of_number x = Some i -> m !! i = None) ->
  resolved m r = Prim Null.
Proof.
  intros Hcid Hidx Hout. unfold resolved. rewrite Hcid, Hidx. simpl.
  destruct (index_of_number x) as [i|]; [|done]. by rewrite (Hout i).
Qed.

Lemma migrated_drop m l1 r l2 :
  resolved m r = Prim Null -> migrated m (l1 ++ r :: l2) = migrated m (l1 ++ l2).
Proof.
  intros Hr. unfold migrated.
  by rewrite !fmap_app, fmap_cons, !List.filter_app, Hr.
Qed.

(** C6. Dangling legacy references are dropped: take a record of the
    progress (or events) collection that has no [clientId] and a numeric
    [clientIndex] that is no position of the client sequence (negative,
    fractional, or past the end).  A migration that completes leaves exactly
    the store it leaves when the record is taken out of the raw collection
    beforehand: nothing of the record remains. *)
Theorem dangling_reference_dropped (P : Platform) (w w' : World) (field : string)
    (l1 l2 : list value) (ps : fields) (r : value) (x : number) :
  field = "progress" \/ field = "events" ->
  get_prop field (state w) = Arr (l1 ++ r :: l2) ps ->
  truthy (get_prop "clientId" r) = false ->
  get_prop "clientIndex" r = Num x ->
  (forall i, index_of_number x = Some i ->
             length (collection "clients" (state w)) <= i) ->
  migrateState P w = (Normal tt, w') ->
  migrateState P {| state := set_prop field (Arr (l1 ++ l2) ps) (state w);
                    calls := calls w |}
    = (Normal tt, w') /\
  length (collection field (state w')) <= length l1 + length l2.
Proof.
  intros Hfield Hraw Hcid Hidx Hout Hrun.
  assert (collections_ok (state w) = true) as Hok.
  { rewrite <- (migrateState_completed P w), Hrun. done. }
  set (w2 := {| state := set_prop field (Arr (l1 ++ l2) ps) (state w); calls := calls w |}).
  assert (has_prop field (state w) = true) as Hhas by eauto using get_prop_array.
  assert (existsb nullish (l1 ++ l2) = false) as Hnn.
  { unfold collections_ok, array_ok in Hok. rewrite !andb_true_iff in Hok.
    destruct Hok as [[_ Hp] He].
    destruct Hfield as [-> | ->]; [rewrite Hraw in Hp|rewrite Hraw in He];
      [apply negb_true_iff in Hp as Hx|apply negb_true_iff in He as Hx];
      rewrite existsb_app in Hx |- *; simpl in Hx;
      apply orb_false_iff in Hx as [-> [_ ->]%orb_false_iff]; done. }
  assert (collection "clients" (state w2) = collection "clients" (state w)) as Hcs.
  { destruct Hfield as [-> | ->]; by apply collection_set_ne. }
  assert (collections_ok (state w2) = true) as Hok2.
  { unfold collections_ok in *. rewrite !andb_true_iff in *.
    destruct Hok as [[Hc Hp] He]. simpl.
    destruct Hfield as [-> | ->];
      rewrite get_set_prop_eq, !get_set_prop_ne by done; simpl; by rewrite Hnn. }
  destruct (migrateState_run P w Hok) as (cs' & m & k' & Ecb & Hrun1).
  destruct (migrateState_run P w2 Hok2) as (cs2 & m2 & k2 & Ecb2 & Hrun2).
  rewrite Hcs in Ecb2. simpl in Ecb2. rewrite Ecb in Ecb2.
  injection Ecb2 as <- <- <-.
  assert (resolved m r = Prim Null) as Hnull.
  { eapply resolved_dangling; [done..|]. intros i Hi.
    destruct (clients_callback_map P _ _ _ _ _ _ _ Ecb) as [_ Hmap].
    rewrite Hmap, decide_False; [done|]. specialize (Hout i Hi). lia. }
  assert (has_prop "clients" (state w) = true) as Hhc.
  { unfold collections_ok in Hok. rewrite !andb_true_iff in Hok.
    destruct Hok as [[Hc _] _]. destruct (array_ok_collection _ _ Hc) as (? & E & _).
    eauto using get_prop_array. }
  assert (has_prop "progress" (state w) = true) as Hhp.
  { unfold collections_ok in Hok. rewrite !andb_true_iff in Hok.
    destruct Hok as [[_ Hp] _]. destruct (array_ok_collection _ _ Hp) as (? & E & _).
    eauto using get_prop_array. }
  rewrite Hrun1 in Hrun. injection Hrun as <-. split.
  - rewrite Hrun2. f_equal. f_equal. subst w2. cbn [state calls].
    destruct Hfield as [-> | ->].
    + assert (collection "progress" (state w) = (l1 ++ r :: l2)%list) as ->
        by (unfold collection; by rewrite Hraw).
      rewrite (collection_set_ne "events" "progress"), collection_set_eq',
        migrated_drop by done.
      rewrite (set_prop_comm "clients" "progress") by done.
      by rewrite set_set_prop.
    + assert (collection "events" (state w) = (l1 ++ r :: l2)%list) as ->
        by (unfold collection; by rewrite Hraw).
      rewrite (collection_set_ne "progress" "events"), collection_set_eq',
        migrated_drop by done.
      rewrite (set_prop_comm "clients" "events") by done.
      rewrite (set_prop_comm "progress" "events") by (done || by apply has_set_prop).
      by rewrite set_set_prop.
  - simpl.
    assert (forall l, length (migrated m l) <= length l) as Hlen.
    { intros l. unfold migrated. rewrite length_fmap.
      etrans; [apply List.filter_length_le|]. by rewrite length_fmap. }
    destruct Hfield as [-> | ->].
    + rewrite collection_set_ne by done.
      rewrite collection_set_eq by (by apply has_set_prop).
      unfold collection. rewrite Hraw, migrated_drop by done.
      etrans; [apply Hlen|]. by rewrite length_app.
    + rewrite collection_set_eq by (by do 2 apply has_set_prop).
      unfold collection. rewrite Hraw, migrated_drop by done.
      etrans; [apply Hlen|]. by rewrite length_app.
Qed.

(** ** Records that carry a clientId *)

(** C7 does not hold as stated: a record that carries both a [clientId] and
    a [clientIndex] leaves the migration without its [clientIndex]. *)
Lemma record_with_both_fields_counterexample :
  truthy (get_prop "clientId" both_fields_record) = true /\
  both_fields_record ∈ collection "progress" both_fields_store /\
  fst (migrateState plain_host {| state := both_fields_store; calls := 0 |}) = Normal tt /\
  collection "progress"
    (state (snd (migrateState plain_host {| state := both_fields_store; calls := 0 |})))
    = [Obj [("clientId", str "c1"); ("date", str "2024-01-01")]] /\
  both_fields_record ∉
    collection "progress"
      (state (snd (migrateState plain_host {| state := both_fields_store; calls := 0 |}))).
Proof.
  split; [done|]. split; [by apply list_elem_of_singleton|].
  split; [done|]. split; [done|].
  intros H. by apply list_elem_of_singleton in H.
Qed.

(** C7, amended. A record of the progress (or events) collection whose
    [clientId] is truthy is kept by a migration that completes, with every
    property it has except [clientIndex], which is removed; a record object
    that has no [clientIndex] is kept exactly as it is. *)
Theorem record_with_clientId_kept (P : Platform) (w w' : World) (field : string)
    (r : value) :
  field = "progress" \/ field = "events" ->
  r ∈ collection field (state w) ->
  truthy (get_prop "clientId" r) = true ->
  migrateState P w = (Normal tt, w') ->
  without "clientIndex" r ∈ collection field (state w') /\
  has_prop "clientIndex" (without "clientIndex" r) = false /\
  (forall k, k <> "clientIndex" ->
     assoc_get k (own_props (without "clientIndex" r)) = assoc_get k (own_props r)) /\
  (forall ps, r = Obj ps -> has_keyb "clientIndex" ps = false ->
     r ∈ collection field (state w')).
Proof.
  intros Hfield Hr Hcid Hrun.
  destruct (migrateState_collections P w w' Hrun) as (cs' & m & _ & _ & Hp & He).
  assert (resolved m r = r) as Hres by (unfold resolved; by rewrite Hcid).
  assert (truthy r = true) as Ht by (by destruct r as [[]| |]).
  assert (without "clientIndex" r ∈ collection field (state w')) as Hin.
  { rewrite <- Hres at 1.
    destruct Hfield as [-> | ->]; [rewrite Hp|rewrite He];
      (apply elem_of_migrated; [done|by rewrite Hres]). }
  split; [done|]. split; [apply has_prop_without|]. split.
  - intros k Hk. simpl. by apply assoc_get_del_ne.
  - intros ps -> Hno. unfold without in Hin. simpl in Hin.
    by rewrite assoc_del_absent in Hin.
Qed.

(** ** Referential integrity *)

Lemma forallb_elem_of {A} (f : A -> bool) (l : list A) :
  forallb f l = true <-> forall x, x ∈ l -> f x = true.
Proof.
  rewrite forallb_forall. split; intros H x Hx; apply H; by apply list_elem_of_In.
Qed.

Lemma record_ok_mono ids ids' r :
  (forall s, s ∈ ids -> s ∈ ids') -> record_ok ids r = true -> record_ok ids' r = true.
Proof.
  intros Hsub. unfold record_ok. destruct r as [| |ps]; try done.
  destruct (assoc_get "clientId" ps) as [[| | | |s]| |]; try done.
  rewrite !andb_true_iff, !bool_decide_eq_true. intros [??]. auto.
Qed.

Lemma integrity_intro st :
  (forall r, r ∈ collection "progress" st \/ r ∈ collection "events" st ->
             record_ok (client_ids st) r = true) ->
  integrity st = true.
Proof.
  intros H. unfold integrity. rewrite andb_true_iff, !forallb_elem_of. split; auto.
Qed.

Lemma integrity_elim st r :
  integrity st = true ->
  r ∈ collection "progress" st \/ r ∈ collection "events" st ->
  record_ok (client_ids st) r = true.
Proof.
  unfold integrity. rewrite andb_true_iff, !forallb_elem_of. intros [??] [?|?]; auto.
Qed.

Lemma string_id_truthy c s : string_id c = Some s -> truthy (get_prop "id" c) = true.
Proof.
  unfold string_id. destruct (get_prop "id" c) as [[| | | |t]| |]; try done.
  simpl. by destruct (String.eqb t "").
Qed.

Lemma string_id_get c s : string_id c = Some s -> get_prop "id" c = Str s.
Proof.
  unfold string_id. destruct (get_prop "id" c) as [[| | | |t]| |]; try done.
  destruct (String.eqb t ""); [done|]. by intros [= ->].
Qed.

Lemma id_ok_string c :
  id_ok c = true -> truthy (get_prop "id" c) = true ->
  exists s, get_prop "id" c = Str s /\ string_id c = Some s.
Proof.
  unfold id_ok, string_id.
  destruct (get_prop "id" c) as [[| |b|x|t]| |]; simpl; try done;
    try (by destruct b); try (by destruct x).
  intros _ Ht. exists t. split; [done|]. by destruct (String.eqb t "").
Qed.

Lemma clients_callback_keeps P cs i m k ok cs' m' k' c :
  clients_callback P cs i m k = (ok, cs', m', k') ->
  c ∈ cs -> truthy (get_prop "id" c) = true -> c ∈ cs'.
Proof.
  revert i m k ok cs' m' k'.
  induction cs as [|c0 cs IH]; intros i m k ok cs' m' k'; simpl.
  { intros _ H. by apply elem_of_nil in H. }
  destruct (nullish c0). { by intros [= <- <- <- <-]. }
  set (pr := if truthy (get_prop "id" c0) then (c0, k) else _).
  destruct pr as [c1 k1] eqn:Epr.
  destruct (clients_callback P cs _ _ _) as [[[ok1 rest1] m1] k2] eqn:E.
  intros [= <- <- <- <-] [->|Hin]%elem_of_cons Ht.
  - subst pr. rewrite Ht in Epr. injection Epr as <- <-. apply elem_of_cons. auto.
  - apply elem_of_cons. right. eauto.
Qed.

Lemma clients_callback_id_ok P cs i m k ok cs' m' k' :
  clients_callback P cs i m k = (ok, cs', m', k') ->
  forallb id_ok cs = true -> forallb id_ok cs' = true.
Proof.
  revert i m k ok cs' m' k'.
  induction cs as [|c0 cs IH]; intros i m k ok cs' m' k'; simpl.
  { by intros [= <- <- <- <-]. }
  destruct (nullish c0). { by intros [= <- <- <- <-]. }
  set (pr := if truthy (get_prop "id" c0) then (c0, k) else _).
  destruct pr as [c1 k1] eqn:Epr.
  destruct (clients_callback P cs _ _ _) as [[[ok1 rest1] m1] k2] eqn:E.
  intros [= <- <- <- <-] [H0 Hcs]%andb_true_iff. simpl.
  rewrite (IH _ _ _ _ _ _ _ E Hcs), andb_true_r. subst pr.
  destruct (truthy (get_prop "id" c0)); injection Epr as <- <-; [done|].
  unfold id_ok in *. destruct c0; simpl in *; [done| |]; by rewrite assoc_get_set_eq.
Qed.

Lemma elem_of_client_ids s st :
  s ∈ client_ids st <-> exists c, c ∈ collection "clients" st /\ string_id c = Some s.
Proof. unfold client_ids. apply list_elem_of_omap. Qed.

Lemma migrated_record_ok m rs ids ids' r' :
  (forall r, r ∈ rs -> legacy r || refers ids r = true) ->
  (forall s, s ∈ ids -> s ∈ ids') ->
  (forall i v, m !! i = Some v -> truthy v = true -> exists s, v = Str s /\ s ∈ ids') ->
  r' ∈ migrated m rs -> record_ok ids' r' = true.
Proof.
  intros Hraw Hsub Hm. unfold migrated.
  intros (y & -> & [(r & -> & Hr)%list_elem_of_fmap Hy]%elem_of_bool_filter)%list_elem_of_fmap.
  unfold record_ok, without.
  rewrite has_keyb_del, andb_true_r, assoc_get_del_ne by done.
  rewrite assoc_get_own_props by apply index_key_clientId.
  specialize (Hraw r Hr). unfold resolved in Hy |- *. fold (legacy r) in Hy |- *.
  destruct (legacy r) eqn:El; simpl in Hraw.
  - destruct (truthy (map_get m (get_prop "clientIndex" r))) eqn:Et; [|done].
    rewrite get_spread_eq. unfold map_get in Et |- *.
    destruct (get_prop "clientIndex" r) as [[| | |x|]| |]; try done.
    destruct (index_of_number x) as [i|]; [|done].
    destruct (m !! i) as [v|] eqn:Ei; [|done]. simpl in *.
    destruct (Hm i v Ei Et) as (s & -> & Hs). by apply bool_decide_eq_true.
  - unfold refers in Hraw.
    destruct (get_prop "clientId" r) as [[| | | |s]| |]; try done.
    apply bool_decide_eq_true in Hraw. apply bool_decide_eq_true. auto.
Qed.

(** Migration establishes referential integrity on a raw store whose
    records are legacy records or already refer to a client. *)
Lemma migrateState_integrity P w w' :
  platform_ok P -> raw_ready (state w) = true ->
  migrateState P w = (Normal tt, w') -> integrity (state w') = true.
Proof.
  intros HP [Hids Hraw]%andb_true_iff Hrun.
  destruct (migrateState_collections P w w' Hrun) as (cs' & m & Ecb & Hc & Hp & He).
  rewrite forallb_elem_of in Hraw.
  assert (forall s, s ∈ client_ids (state w) -> s ∈ client_ids (state w')) as Hsub.
  { intros s (c & Hin & Hs)%elem_of_client_ids. apply elem_of_client_ids.
    exists c. split; [|done]. rewrite Hc.
    eauto using clients_callback_keeps, string_id_truthy. }
  assert (forall i v, m !! i = Some v -> truthy v = true ->
            exists s, v = Str s /\ s ∈ client_ids (state w')) as Hm.
  { intros i v Hi Hv.
    destruct (clients_callback_map P _ _ _ _ _ _ _ Ecb) as [_ Hmap].
    rewrite Hmap in Hi. case_decide; [|by rewrite lookup_empty in Hi].
    destruct (cs' !! (i - 0)) as [c|] eqn:Eci; [|done]. injection Hi as <-.
    pose proof (clients_callback_id_ok P _ _ _ _ _ _ _ _ Ecb Hids) as Hok'.
    rewrite forallb_elem_of in Hok'.
    destruct (id_ok_string c) as (s & Hs & Hsid);
      [eauto using list_elem_of_lookup_2|done|].
    exists s. split; [done|]. apply elem_of_client_ids. exists c.
    rewrite Hc. eauto using list_elem_of_lookup_2. }
  apply integrity_intro. intros r' [Hr|Hr]; [rewrite Hp in Hr|rewrite He in Hr];
    (eapply migrated_record_ok; [|exact Hsub|exact Hm|exact Hr]);
    intros r Hin; apply Hraw, elem_of_app; auto.
Qed.

(** After a migration that completes, no record carries a
    [clientIndex]. *)
Lemma migrateState_no_clientIndex P w w' r :
  migrateState P w = (Normal tt, w') ->
  r ∈ collection "progress" (state w') \/ r ∈ collection "events" (state w') ->
  has_prop "clientIndex" r = false.
Proof.
  intros Hrun Hr.
  destruct (migrateState_collections P w w' Hrun) as (cs' & m & _ & _ & Hp & He).
  rewrite Hp, He in Hr. unfold migrated in Hr.
  destruct Hr as [(y & -> & _)%list_elem_of_fmap|(y & -> & _)%list_elem_of_fmap];
    apply has_prop_without.
Qed.

Lemma push_normal field x w w' :
  push field x w = (Normal tt, w') ->
  collection field (state w') = (collection field (state w) ++ [x])%list /\
  (forall g, g <> field -> collection g (state w') = collection g (state w)).
Proof.
  unfold push, assign.
  destruct (get_prop field (state w)) as [|xs ps|] eqn:E; try done.
  intros [= <-]. simpl. split.
  - unfold collection. rewrite get_set_prop_eq, E by eauto using get_prop_array. done.
  - intros g Hg. by apply collection_set_ne.
Qed.

Lemma splice_normal field idx w w' :
  splice field idx w = (Normal tt, w') ->
  collection field (state w') = delete idx (collection field (state w)) /\
  (forall g, g <> field -> collection g (state w') = collection g (state w)).
Proof.
  unfold splice, assign.
  destruct (get_prop field (state w)) as [|xs ps|] eqn:E; try done.
  intros [= <-]. simpl. split.
  - unfold collection. rewrite get_set_prop_eq, E by eauto using get_prop_array. done.
  - intros g Hg. by apply collection_set_ne.
Qed.

Lemma integrity_clients_grow st st' :
  collection "progress" st' = collection "progress" st ->
  collection "events" st' = collection "events" st ->
  (forall s, s ∈ client_ids st -> s ∈ client_ids st') ->
  integrity st = true -> integrity st' = true.
Proof.
  intros Hp He Hsub Hint. apply integrity_intro. rewrite Hp, He. intros r Hr.
  eapply record_ok_mono; [exact Hsub|]. by apply integrity_elim.
Qed.

Lemma integrity_same_collections st st' :
  collection "clients" st' = collection "clients" st ->
  collection "progress" st' = collection "progress" st ->
  collection "events" st' = collection "events" st ->
  integrity st = true -> integrity st' = true.
Proof.
  intros Hc Hp He. apply integrity_clients_grow; try done.
  unfold client_ids. by rewrite Hc.
Qed.

Lemma integrity_push_record field x w w' :
  field = "progress" \/ field = "events" ->
  record_ok (client_ids (state w)) x = true ->
  push field x w = (Normal tt, w') ->
  integrity (state w) = true -> integrity (state w') = true.
Proof.
  intros Hfield Hnew [Hf Hg]%push_normal Hint.
  assert (client_ids (state w') = client_ids (state w)) as Hids.
  { unfold client_ids. rewrite Hg; [done|]. by destruct Hfield as [-> | ->]. }
  apply integrity_intro. rewrite Hids.
  destruct Hfield as [-> | ->]; rewrite Hf, Hg by done; intros r [Hr|Hr];
    try (apply elem_of_app in Hr as [Hr|Hr%list_elem_of_singleton]; [|by subst]);
    apply integrity_elim; auto.
Qed.

Lemma integrity_deleteClient p w w' :
  deleteClient p w = (Normal tt, w') ->
  integrity (state w) = true -> integrity (state w') = true.
Proof.
  intros Hrun Hint.
  destruct (deleteClient_normal _ _ _ Hrun) as (w1 & w2 & H1 & H2 & H3).
  pose proof (filter_out_collection_ne "clients" "id" p w "progress" ltac:(done)) as Fp1.
  pose proof (filter_out_collection_ne "clients" "id" p w "events" ltac:(done)) as Fe1.
  pose proof (filter_out_collection_ne "progress" "clientId" p w1 "clients" ltac:(done)) as Fc2.
  pose proof (filter_out_collection_ne "progress" "clientId" p w1 "events" ltac:(done)) as Fe2.
  pose proof (filter_out_collection_ne "events" "clientId" p w2 "clients" ltac:(done)) as Fc3.
  pose proof (filter_out_collection_ne "events" "clientId" p w2 "progress" ltac:(done)) as Fp3.
  rewrite H1 in Fp1, Fe1. rewrite H2 in Fc2, Fe2. rewrite H3 in Fc3, Fp3. simpl in *.
  pose proof (filter_out_collection _ _ _ _ _ H1) as C1.
  pose proof (filter_out_collection _ _ _ _ _ H2) as C2.
  pose proof (filter_out_collection _ _ _ _ _ H3) as C3.
  assert (forall r,
            r ∈ collection "progress" (state w) \/ r ∈ collection "events" (state w) ->
            strict_eq (get_prop "clientId" r) p = false ->
            record_ok (client_ids (state w')) r = true) as Hkeep.
  { intros r Hr Hne. pose proof (integrity_elim _ _ Hint Hr) as Hok.
    unfold record_ok in *. destruct r as [| |ps]; try done. simpl in Hne.
    destruct (assoc_get "clientId" ps) as [[| | | |s]| |]; try done.
    apply andb_true_iff in Hok as [Hs ->]. rewrite andb_true_r.
    apply bool_decide_eq_true in Hs. apply bool_decide_eq_true.
    apply elem_of_client_ids in Hs as (c & Hc & Hsid). apply elem_of_client_ids.
    exists c. split; [|done]. rewrite Fc3, Fc2, C1. apply elem_of_bool_filter.
    split; [done|]. by rewrite (string_id_get _ _ Hsid), Hne. }
  apply integrity_intro. intros r [Hr|Hr].
  - rewrite Fp3, C2, Fp1 in Hr. apply elem_of_bool_filter in Hr as [Hr Hne].
    apply Hkeep; [auto|by apply negb_true_iff].
  - rewrite C3, Fe2, Fe1 in Hr. apply elem_of_bool_filter in Hr as [Hr Hne].
    apply Hkeep; [auto|by apply negb_true_iff].
Qed.

Lemma integrity_addClient P name age weight w w' :
  addClient P name age weight w = (Normal tt, w') ->
  integrity (state w) = true -> integrity (state w') = true.
Proof.
  unfold addClient. destruct (String.eqb name ""); [by intros [= <-]|].
  destruct (nullish (get_prop "clients" (state w))); [done|].
  intros [Hf Hg]%push_normal. simpl in *.
  apply integrity_clients_grow; [by apply Hg..|].
  intros s (c & Hc & Hs)%elem_of_client_ids. apply elem_of_client_ids.
  exists c. split; [|done]. rewrite Hf. apply elem_of_app. auto.
Qed.

Lemma integrity_splice_events idx w w' :
  splice "events" idx w = (Normal tt, w') ->
  integrity (state w) = true -> integrity (state w') = true.
Proof.
  intros [Hf Hg]%splice_normal Hint. apply integrity_intro.
  unfold client_ids. rewrite Hf, !Hg by done. intros r [Hr|Hr].
  - apply integrity_elim; auto.
  - apply integrity_elim; [done|]. right.
    by eapply list_elem_of_delete_inv.
Qed.

(** C4 does not hold as stated: a record that carries neither a [clientId]
    nor a [clientIndex] leaves migration as it came, referring to no
    client; the progress form stores the [clientId] it is given without
    looking for a client that has it; and the restore handler saves a
    document whose record names a client that the document does not
    have. *)
Lemma integrity_counterexample :
  migrateState plain_host {| state := orphan_store; calls := 0 |}
    = (Normal tt, {| state := orphan_store; calls := 0 |}) /\
  integrity orphan_store = false /\
  integrity initial_state = true /\
  fst (addProgressRecord "ghost" "2024-01-01" "70" {| state := initial_state; calls := 0 |})
    = Normal tt /\
  integrity
    (state (snd (addProgressRecord "ghost" "2024-01-01" "70"
                   {| state := initial_state; calls := 0 |})))
    = false /\
  replaceState plain_host (Some ghost_store) {| state := initial_state; calls := 0 |}
    = (Saved, {| state := ghost_store; calls := 0 |}) /\
  integrity ghost_store = false.
Proof. repeat split; done. Qed.

(** C4, amended. After a migration that completes no record carries a
    [clientIndex] field.  Every record then has a [clientId] that is some
    client's id provided that, in the raw store, the ids that clients
    already had were strings and each record was a legacy record or
    already referred to a client: a record with a dangling [clientId], or
    with neither field, is kept without being checked.  From then on the
    property is kept by every call of the mutation API that returns, the
    restore and the two settings handlers included, provided the
    [clientId] handed to [addProgressRecord] and [addEvent] is the id of a
    client in the store, which neither of them checks, and provided a
    restored document is one that migration brings to the property
    (collections that are arrays without [null] entries, string ids,
    records that are legacy records or refer to a client of the document),
    which the restore does not check either. *)
Theorem integrity_maintained (P : Platform) (w w' : World) :
  platform_ok P ->
  (migrateState P w = (Normal tt, w') ->
     (forall r,
        r ∈ collection "progress" (state w') \/ r ∈ collection "events" (state w') ->
        has_prop "clientIndex" r = false) /\
     (raw_ready (state w) = true -> integrity (state w') = true)) /\
  (forall m,
     integrity (state w) = true -> valid_call (state w) m = true ->
     run P m w = (Normal tt, w') -> integrity (state w') = true).
Proof.
  intros HP. split.
  - intros Hrun. split.
    + intros r. by apply migrateState_no_clientIndex with P w.
    + intros Hraw. by apply migrateState_integrity with P w.
  - intros m Hint Hvalid Hrun. destruct m; simpl in *.
    + by eapply integrity_addClient.
    + by eapply integrity_deleteClient.
    + unfold addProgram in Hrun. destruct (String.eqb name ""); [by injection Hrun as <-|].
      apply push_normal in Hrun as [_ Hg].
      eapply integrity_same_collections; [..|exact Hint]; by apply Hg.
    + apply splice_normal in Hrun as [_ Hg].
      eapply integrity_same_collections; [..|exact Hint]; by apply Hg.
    + unfold addExercise in Hrun. destruct (String.eqb name ""); [by injection Hrun as <-|].
      apply push_normal in Hrun as [_ Hg].
      eapply integrity_same_collections; [..|exact Hint]; by apply Hg.
    + apply splice_normal in Hrun as [_ Hg].
      eapply integrity_same_collections; [..|exact Hint]; by apply Hg.
    + unfold addProgressRecord in Hrun.
      destruct (String.eqb clientId ""); [by injection Hrun as <-|].
      destruct (String.eqb date ""); [by injection Hrun as <-|].
      simpl in Hvalid.
      eapply integrity_push_record; [by left| |exact Hrun|done].
      simpl. by rewrite Hvalid.
    + unfold addEvent in Hrun.
      destruct (String.eqb clientId ""); [by injection Hrun as <-|].
      destruct (String.eqb date ""); [by injection Hrun as <-|].
      simpl in Hvalid.
      eapply integrity_push_record; [by right| |exact Hrun|done].
      simpl. by rewrite Hvalid.
    + by eapply integrity_splice_events.
    + injection Hrun as <-. destruct parsed as [data|]; [|done].
      apply andb_true_iff in Hvalid as [Hok Hraw].
      destruct (migrateState_returns P {| state := data; calls := calls w |} Hok)
        as [w1 H1].
      rewrite (replaceState_snd _ _ _ _ H1).
      eapply integrity_same_collections;
        [..|exact (migrateState_integrity P {| state := data; calls := calls w |}
                     w1 HP Hraw H1)];
        unfold collection; by rewrite apply_settings_frame.
    + assert (w' = snd (changeTheme theme w)) as -> by (by rewrite Hrun).
      eapply integrity_same_collections; [..|exact Hint];
        unfold collection; by rewrite changeTheme_frame.
    + assert (w' = snd (changeLanguage lang w)) as -> by (by rewrite Hrun).
      eapply integrity_same_collections; [..|exact Hint];
        unfold collection; by rewrite changeLanguage_frame.
Qed.

(** ** Export and restore *)

Lemma to_json_defined v v' : to_json v = Some v' -> v' <> Undefined.
Proof. destruct v as [[| | |[]|]| |]; simpl; intros [= <-]; done. Qed.

Lemma to_json_populated v : populated v = true -> exists p, to_json v = Some (Prim p).
Proof. destruct v as [[| |b|[]|]| |]; simpl; try done; eauto. Qed.

Lemma assoc_get_json_fields k ps v' :
  to_json (assoc_get k ps) = Some v' ->
  assoc_get k (json_fields to_json ps) = v'.
Proof.
  induction ps as [|[k0 x] ps IH]; simpl; [done|].
  destruct (String.eqb k k0) eqn:E.
  - intros ->. simpl. by rewrite E.
  - intros H. destruct (to_json x); simpl; rewrite ?E; auto.
Qed.

Lemma has_keyb_json_fields k ps :
  has_keyb k ps = false -> has_keyb k (json_fields to_json ps) = false.
Proof.
  induction ps as [|[k0 x] ps IH]; simpl; [done|].
  intros [E H]%orb_false_iff. destruct (to_json x); simpl; rewrite ?E; auto.
Qed.

Lemma json_fields_again ps :
  Forall (fun kv => forall v', to_json kv.2 = Some v' -> to_json v' = Some v') ps ->
  json_fields to_json (json_fields to_json ps) = json_fields to_json ps.
Proof.
  induction 1 as [|[k x] ps Hx _ IH]; simpl; [done|].
  destruct (to_json x) as [y|] eqn:E; [|done]. simpl in *.
  by rewrite (Hx y E), IH.
Qed.

(** What was exported and read back exports to itself. *)
Lemma to_json_again v v' : to_json v = Some v' -> to_json v' = Some v'.
Proof.
  revert v'. induction v as [p|es ps IHes _|ps IH] using value_ind; intros v'.
  - destruct p as [| | |[]|]; simpl; by intros [= <-].
  - simpl. intros [= <-]. simpl. do 2 f_equal. rewrite List.map_map.
    induction IHes as [|e es He _ IH']; simpl; [done|]. f_equal; [|done].
    destruct (to_json e) as [e'|] eqn:E; simpl; [|done]. by rewrite (He e' eq_refl).
  - simpl. intros [= <-]. simpl. by rewrite json_fields_again.
Qed.

(** Records that are objects without a [clientIndex] pass the records
    pipeline unchanged. *)
Lemma migrated_settled m rs :
  forallb (fun r => match r with
                    | Obj ps => negb (has_keyb "clientIndex" ps)
                    | _ => false
                    end) rs = true ->
  migrated m rs = rs.
Proof.
  unfold migrated. induction rs as [|r rs IH]; [done|]. cbn [forallb].
  intros [Hr Hrs]%andb_true_iff. destruct r as [| |ps]; try done.
  apply negb_true_iff in Hr.
  assert (resolved m (Obj ps) = Obj ps) as Hres.
  { unfold resolved. simpl. by rewrite (assoc_get_absent _ _ Hr), andb_false_r. }
  rewrite fmap_cons. cbn [List.filter]. rewrite Hres. cbn [truthy].
  rewrite fmap_cons, IH by done. f_equal.
  unfold without. simpl. by rewrite assoc_del_absent.
Qed.

Lemma record_ok_plain ids r :
  record_ok ids r = true ->
  match r with Obj ps => negb (has_keyb "clientIndex" ps) | _ => false end = true.
Proof. destruct r as [| |ps]; simpl; try done. by intros [_ ?]%andb_true_iff. Qed.

Lemma client_ok_json c :
  client_ok c = true ->
  exists ps, to_json c = Some (Obj ps) /\ string_id (Obj ps) = string_id c.
Proof.
  destruct c as [| |ps]; simpl; try done. intros H. eexists. split; [done|].
  unfold string_id in *. simpl in *.
  destruct (assoc_get "id" ps) as [[| | | |s]| |] eqn:E; try done.
  by rewrite (assoc_get_json_fields "id" ps (Str s)) by (by rewrite E).
Qed.

Lemma record_ok_json ids r :
  record_ok ids r = true ->
  exists ps, to_json r = Some (Obj ps) /\ record_ok ids (Obj ps) = true.
Proof.
  destruct r as [| |ps]; simpl; try done. intros [H1 H2]%andb_true_iff.
  eexists. split; [done|]. simpl. apply negb_true_iff in H2.
  rewrite (has_keyb_json_fields _ _ H2). simpl. rewrite andb_true_r.
  destruct (assoc_get "clientId" ps) as [[| | | |s]| |] eqn:E; try done.
  by rewrite (assoc_get_json_fields "clientId" ps (Str s)) by (by rewrite E).
Qed.

Lemma existsb_nullish_false (q : value -> bool) l :
  forallb q l = true ->
  (forall x, q x = true -> nullish x = false) ->
  existsb nullish l = false.
Proof.
  intros Hl Hq. induction l as [|x l IH]; simpl; [done|].
  apply andb_true_iff in Hl as [Hx Hl]. by rewrite (Hq x Hx), IH.
Qed.

Lemma exported_array fs k xs xps :
  get_prop k (Obj fs) = Arr xs xps ->
  get_prop k (Obj (json_fields to_json fs)) = Arr (List.map reread xs) [] /\
  collection k (Obj (json_fields to_json fs)) = List.map reread (collection k (Obj fs)).
Proof.
  intros H.
  assert (get_prop k (Obj (json_fields to_json fs)) = Arr (List.map reread xs) []) as Hd.
  { simpl in *. apply assoc_get_json_fields. by rewrite H. }
  split; [done|]. unfold collection. by rewrite Hd, H.
Qed.

Lemma exported_forallb (ok ok' : value -> bool) xs :
  (forall x, ok x = true -> exists ps, to_json x = Some (Obj ps) /\ ok' (Obj ps) = true) ->
  forallb ok xs = true -> forallb ok' (List.map reread xs) = true.
Proof.
  intros Hok. induction xs as [|x xs IH]; simpl; [done|].
  intros [Hx Hxs]%andb_true_iff. rewrite IH, andb_true_r by done.
  destruct (Hok x Hx) as (ps & E & H).
  assert (reread x = Obj ps) as -> by (unfold reread; by rewrite E). done.
Qed.

Lemma exported_client_ids cs :
  forallb client_ok cs = true ->
  omap string_id (List.map reread cs) = omap string_id cs.
Proof.
  induction cs as [|c cs IH]; [done|].
  cbn [forallb]. intros [Hc Hcs]%andb_true_iff. specialize (IH Hcs).
  destruct (client_ok_json c Hc) as (ps & E & Hid).
  assert (reread c = Obj ps) as Hc' by (unfold reread; by rewrite E).
  cbn [List.map omap list_omap] in IH |- *. rewrite Hc', Hid.
  destruct (string_id c); by rewrite IH.
Qed.

(** Restoring the exported document of a store that satisfies the
    invariants leaves the document itself as the store. *)
Lemma restore_exported P fs k :
  invariants (Obj fs) = true ->
  replaceState P (Some (Obj (json_fields to_json fs))) {| state := Obj fs; calls := k |}
    = (Saved, {| state := Obj (json_fields to_json fs); calls := k |}) /\
  client_ids (Obj (json_fields to_json fs)) = client_ids (Obj fs).
Proof.
  unfold invariants. set (doc := Obj (json_fields to_json fs)).
  rewrite !andb_true_iff. intros [[[[Hok Hcl] Hnd] Hint] Hset].
  unfold collections_ok in Hok. rewrite !andb_true_iff in Hok.
  destruct Hok as [[Hc Hp] He].
  destruct (array_ok_collection _ _ Hc) as (cps & Ec & _).
  destruct (array_ok_collection _ _ Hp) as (pps & Ep & _).
  destruct (array_ok_collection _ _ He) as (eps & Ee & _).
  destruct (exported_array _ _ _ _ Ec) as [Dc Cc].
  destruct (exported_array _ _ _ _ Ep) as [Dp Cp].
  destruct (exported_array _ _ _ _ Ee) as [De Ce].
  fold doc in Dc, Cc, Dp, Cp, De, Ce.
  assert (client_ids doc = client_ids (Obj fs)) as Hids.
  { unfold client_ids. rewrite Cc. by apply exported_client_ids. }
  split; [|done].
  unfold integrity in Hint. apply andb_true_iff in Hint as [Hip Hie].
  (* the clients carry their ids *)
  assert (forallb (fun c => negb (nullish c) && truthy (get_prop "id" c))
            (collection "clients" doc) = true) as Hsettled.
  { rewrite Cc. eapply exported_forallb; [|exact Hcl]. intros c Hcok.
    destruct (client_ok_json c Hcok) as (ps & E & Hid). exists ps. split; [done|].
    destruct c as [| |cps0]; try done. simpl in Hcok.
    rewrite <- Hid in Hcok. cbn [nullish negb andb].
    destruct (string_id (Obj ps)) as [s|] eqn:Es; [|done].
    by apply (string_id_truthy _ s). }
  (* the records are plain *)
  assert (forall field,
            forallb (record_ok (client_ids (Obj fs))) (collection field (Obj fs)) = true ->
            forallb (fun r => match r with
                              | Obj ps => negb (has_keyb "clientIndex" ps)
                              | _ => false
                              end) (List.map reread (collection field (Obj fs))) = true)
    as Hplain.
  { intros field. apply exported_forallb. intros r Hr.
    destruct (record_ok_json _ _ Hr) as (ps & E & Hr'). exists ps. split; [done|].
    by apply record_ok_plain in Hr'. }
  assert (collections_ok doc = true) as Hokd.
  { unfold collections_ok, array_ok. rewrite Dc, Dp, De.
    rewrite Cc in Hsettled.
    rewrite (existsb_nullish_false _ _ Hsettled),
      (existsb_nullish_false _ _ (Hplain "progress" Hip)),
      (existsb_nullish_false _ _ (Hplain "events" Hie)); [done|..].
    - by intros [[]| |].
    - by intros [[]| |].
    - by intros [[]| |]. }
  destruct (migrateState_run P {| state := doc; calls := k |} Hokd)
    as (cs' & m & k' & Ecb & Hrun).
  destruct (clients_callback_settled P _ 0 ∅ k Hsettled) as [m' Ecb'].
  cbn [state calls] in Ecb, Hrun. rewrite Ecb' in Ecb. injection Ecb as <- <- <-.
  rewrite Cp, Ce, !migrated_settled in Hrun by auto.
  rewrite <- Cp, <- Ce in Hrun.
  assert (Arr (collection "clients" doc) [] = get_prop "clients" doc) as Rc
    by (by rewrite Dc, Cc).
  assert (Arr (collection "progress" doc) [] = get_prop "progress" doc) as Rp
    by (by rewrite Dp, Cp).
  assert (Arr (collection "events" doc) [] = get_prop "events" doc) as Re
    by (by rewrite De, Ce).
  rewrite Rc, Rp, Re in Hrun.
  rewrite (set_prop_same "clients"), (set_prop_same "progress"),
    (set_prop_same "events") in Hrun by eauto using get_prop_array.
  (* the settings *)
  unfold settings_ok in Hset.
  destruct (get_prop "settings" (Obj fs)) as [| |sfs] eqn:Es; try done.
  apply andb_true_iff in Hset as [Htheme Hlang].
  destruct (to_json_populated _ Htheme) as (theme & Etheme).
  destruct (to_json_populated _ Hlang) as (lang & Elang).
  assert (get_prop "settings" doc = Obj (json_fields to_json sfs)) as Ds.
  { simpl in *. apply assoc_get_json_fields. by rewrite Es. }
  assert (get_prop "theme" (Obj (json_fields to_json sfs)) = theme) as Dt.
  { simpl in *. by apply assoc_get_json_fields. }
  assert (get_prop "language" (Obj (json_fields to_json sfs)) = lang) as Dl.
  { simpl in *. by apply assoc_get_json_fields. }
  unfold replaceState. cbn [calls]. fold doc. unfold bind at 1. rewrite Hrun.
  assert (nullish doc = false) as Nd by done.
  assert (nullish (get_prop "settings" doc) = false) as Ns by (by rewrite Ds).
  rewrite apply_settings_eq by done. cbn [state calls]. rewrite Ds, Dt, Dl.
  cbn [stringifies]. rewrite <- Dl, (set_prop_same "language"), <- Ds, set_prop_same.
  - done.
  - apply get_prop_present. by rewrite Ds.
  - done.
  - apply get_prop_present. rewrite Dl. eauto using to_json_defined.
  - done.
Qed.

(** C9. Round trip: for every store that satisfies the invariants,
    [replaceState(exportState())] reaches [saveState()] and leaves a store
    that is observably the store from before: it exports to the same
    document, with the same client ids (and no id is generated); and when
    the store is the very document it exports (it holds no negative zero,
    no infinity, no [undefined] property and no named property on an
    array, the things JSON does not carry), the store after the call is
    equal to the store before. *)
Theorem export_restore_roundtrip (P : Platform) (w : World) :
  invariants (state w) = true ->
  exists w',
    replaceState P (exportState w) w = (Saved, w') /\
    exportState w' = exportState w /\
    client_ids (state w') = client_ids (state w) /\
    calls w' = calls w /\
    (exportState w = Some (state w) -> w' = w).
Proof.
  destruct w as [st k]. unfold exportState. cbn [state calls]. intros Hinv.
  destruct st as [| |fs]; try done.
  destruct (restore_exported P fs k Hinv) as [Hrun Hids].
  eexists. split; [exact Hrun|]. cbn [state calls].
  split; [by apply to_json_again with (Obj fs)|]. split; [done|]. split; [done|].
  by intros [= ->].
Qed.

(** ** The theorems at concrete stores *)

(** The store that migration leaves from the legacy store satisfies the
    invariants: client [B] has the second generated id, the record for
    position 1 refers to it, and the record for position 5 is gone. *)
Example migrated_legacy_store :
  migrateState plain_host {| state := legacy_store; calls := 0 |}
  = (Normal tt,
     {| state :=
          store_with
            [Obj [("name", str "A"); ("id", str "client-1700000000000-5")];
             Obj [("name", str "B"); ("id", str "client-1700000000001-42")]]
            [Obj [("date", str "2024-01-01"); ("weight", str "70");
                  ("clientId", str "client-1700000000001-42")]]
            [];
        calls := 2 |}) /\
  invariants (state (snd (migrateState plain_host {| state := legacy_store; calls := 0 |})))
  = true.
Proof. split; reflexivity. Qed.

Lemma migrateState_idempotent_witness :
  platform_ok plain_host /\
  state (snd (migrateState plain_host
                (snd (migrateState plain_host {| state := legacy_store; calls := 0 |}))))
    = state (snd (migrateState plain_host {| state := legacy_store; calls := 0 |})).
Proof.
  assert (platform_ok plain_host) as HP by (intros uuid k H; discriminate H).
  split; [exact HP|].
  exact (proj1 (migrateState_idempotent plain_host
                  {| state := legacy_store; calls := 0 |} HP)).
Defined.

Lemma deleteClient_cascade_witness :
  exists w',
    deleteClient (Str "c1") {| state := sample_store; calls := 0 |} = (Normal tt, w') /\
    collection "clients" (state w')
      = [Obj [("id", str "c2"); ("name", str "Bob"); ("age", str "");
              ("weight", str "")]] /\
    forall r,
      r ∈ (collection "progress" (state w') ++ collection "events" (state w'))%list ->
      strict_eq (get_prop "clientId" r) (Str "c1") = false.
Proof.
  destruct (deleteClient_cascade {| state := sample_store; calls := 0 |}
              (Obj [("id", str "c1"); ("name", str "Ann"); ("age", str "30");
                    ("weight", str "70")])
              (Str "c1"))
    as (w' & Hrun & _ & Hrec).
  - reflexivity.
  - apply list_elem_of_here.
  - reflexivity.
  - exists w'. split; [exact Hrun|]. split; [|exact Hrec].
    vm_compute in Hrun. injection Hrun as <-. reflexivity.
Defined.

Lemma legacy_reference_resolved_witness :
  exists w',
    migrateState plain_host {| state := legacy_store; calls := 0 |} = (Normal tt, w') /\
    Obj [("date", str "2024-01-01"); ("weight", str "70");
         ("clientId", str "client-1700000000001-42")]
      ∈ collection "progress" (state w').
Proof.
  destruct (legacy_reference_resolved plain_host {| state := legacy_store; calls := 0 |}
              "progress" legacy_record (Finite false 1 0) 1)
    as (w' & c' & Hrun & _ & _ & Hin & _).
  - intros uuid k H. discriminate H.
  - reflexivity.
  - reflexivity.
  - left. reflexivity.
  - apply list_elem_of_here.
  - reflexivity.
  - reflexivity.
  - reflexivity.
  - simpl. lia.
  - exists w'. split; [exact Hrun|exact Hin].
Defined.

Lemma dangling_reference_dropped_witness :
  migrateState plain_host
    {| state := store_with [Obj [("name", str "A")]; Obj [("name", str "B")]]
                  [legacy_record] [];
       calls := 0 |}
  = migrateState plain_host {| state := legacy_store; calls := 0 |}.
Proof.
  pose proof (dangling_reference_dropped plain_host
                {| state := legacy_store; calls := 0 |}
                (snd (migrateState plain_host {| state := legacy_store; calls := 0 |}))
                "progress" [legacy_record] [] [] dangling_record (Finite false 5 0))
    as H.
  destruct H as [H _].
  - left. reflexivity.
  - reflexivity.
  - reflexivity.
  - reflexivity.
  - intros i Hi. vm_compute in Hi. injection Hi as <-. simpl. lia.
  - reflexivity.
  - exact H.
Defined.

Lemma record_with_clientId_kept_witness :
  Obj [("clientId", str "c1"); ("date", str "2024-01-01")]
    ∈ collection "progress"
        (state (snd (migrateState plain_host
                       {| state := both_fields_store; calls := 0 |}))).
Proof.
  refine (proj1 (record_with_clientId_kept plain_host
                   {| state := both_fields_store; calls := 0 |}
                   (snd (migrateState plain_host
                           {| state := both_fields_store; calls := 0 |}))
                   "progress" both_fields_record _ _ _ _)).
  - left. reflexivity.
  - apply list_elem_of_here.
  - reflexivity.
  - reflexivity.
Defined.

Lemma integrity_maintained_witness :
  integrity (state (snd (migrateState plain_host {| state := legacy_store; calls := 0 |})))
    = true /\
  integrity
    (state (snd (addProgressRecord "c2" "2024-03-01" "71"
                   {| state := sample_store; calls := 0 |})))
    = true /\
  integrity
    (state (snd (replaceState plain_host (Some legacy_store)
                   {| state := sample_store; calls := 0 |})))
    = true.
Proof.
  assert (platform_ok plain_host) as HP by (intros uuid k H; discriminate H).
  split; [|split].
  - refine (proj2 (proj1 (integrity_maintained plain_host
                            {| state := legacy_store; calls := 0 |}
                            (snd (migrateState plain_host
                                    {| state := legacy_store; calls := 0 |})) HP) _) _);
      reflexivity.
  - refine (proj2 (integrity_maintained plain_host
                     {| state := sample_store; calls := 0 |}
                     (snd (addProgressRecord "c2" "2024-03-01" "71"
                             {| state := sample_store; calls := 0 |})) HP)
              (AddProgressRecord "c2" "2024-03-01" "71") _ _ _);
      reflexivity.
  - refine (proj2 (integrity_maintained plain_host
                     {| state := sample_store; calls := 0 |}
                     (snd (replaceState plain_host (Some legacy_store)
                             {| state := sample_store; calls := 0 |})) HP)
              (ReplaceState (Some legacy_store)) _ _ _);
      reflexivity.
Defined.

Lemma export_restore_roundtrip_witness :
  invariants sample_store = true /\
  replaceState plain_host (exportState {| state := sample_store; calls := 7 |})
    {| state := sample_store; calls := 7 |}
  = (Saved, {| state := sample_store; calls := 7 |}).
Proof.
  split; [reflexivity|].
  destruct (export_restore_roundtrip plain_host {| state := sample_store; calls := 7 |})
    as (w' & Hrun & _ & _ & _ & Hsame); [reflexivity|].
  rewrite Hrun. f_equal. apply Hsame. reflexivity.
Defined.

Lemma replaceState_failure_witness :
  well_shaped (Obj []) = false /\
  fst (replaceState plain_host (Some (Obj [])) {| state := sample_store; calls := 0 |})
    = InvalidBackupFile.
Proof.
  split; [reflexivity|].
  refine (proj1 (proj2 (replaceState_failure plain_host
                          {| state := sample_store; calls := 0 |}) (Obj []) _)).
  reflexivity.
Defined.

(** * Further properties of the store *)

(** ** Fallback identifiers *)

Lemma decimal_dash_free n : dash_free (decimal n) = true.
Proof.
  unfold decimal. generalize (N.to_uint n). intros d.
  induction d; simpl; auto.
Qed.

Lemma decimal_inj n n' : decimal n = decimal n' -> n = n'.
Proof.
  unfold decimal. intros H. apply DecimalN.Unsigned.to_uint_inj.
  assert (Some (N.to_uint n) = Some (N.to_uint n')) as [= E]; [|done].
  by rewrite <- !NilEmpty.usu, H.
Qed.

Lemma append_inj_l p a b : p +:+ a = p +:+ b -> a = b.
Proof. induction p as [|c p IH]; simpl; [done|]. intros [= H]. auto. Qed.

Lemma split_at_dash s1 t1 s2 t2 :
  dash_free s1 = true -> dash_free s2 = true ->
  s1 +:+ String "-"%char t1 = s2 +:+ String "-"%char t2 -> s1 = s2 /\ t1 = t2.
Proof.
  revert s2. induction s1 as [|c1 s1 IH]; intros [|c2 s2]; simpl.
  - by intros _ _ [= ->].
  - intros _ [Hc _]%andb_true_iff [= <- _]. done.
  - intros [Hc _]%andb_true_iff _ [= -> _]. done.
  - intros [_ H1]%andb_true_iff [_ H2]%andb_true_iff [= -> H].
    destruct (IH s2 H1 H2 H) as [-> ->]. done.
Qed.

(** X1. Without [crypto.randomUUID], two calls of [generateId] with the
    same prefix give different identifiers as soon as they differ in the
    clock or in the random number: the fallback can only collide when both
    are the same. *)
Theorem generateId_fallback_distinct (P : Platform) (prefix : string) (j k : nat) :
  randomUUID P = None ->
  (now P j, random10000 P j) <> (now P k, random10000 P k) ->
  generateId P prefix j <> generateId P prefix k.
Proof.
  intros HP Hne Heq. apply Hne. unfold generateId in Heq. rewrite HP in Heq.
  apply append_inj_l in Heq. simpl in Heq. injection Heq as Heq.
  apply split_at_dash in Heq as [H1 H2]; auto using decimal_dash_free.
  by rewrite (decimal_inj _ _ H1), (decimal_inj _ _ H2).
Qed.

Lemma generateId_fallback_distinct_witness :
  generateId plain_host "client" 0 <> generateId plain_host "client" 1.
Proof.
  apply (generateId_fallback_distinct plain_host "client" 0 1).
  - reflexivity.
  - vm_compute. discriminate.
Defined.

(** ** What migration does to the clients *)

(** X2. [migrateState] completes exactly on the stores whose [clients],
    [progress] and [events] are arrays without [null] entries; on every
    other store it throws a [TypeError]. *)
Theorem migrateState_completes_iff (P : Platform) (w : World) :
  fst (migrateState P w) = Normal tt <-> collections_ok (state w) = true.
Proof.
  rewrite <- (migrateState_completed P w). unfold completed.
  destruct (migrateState P w) as [[[]|] w']; simpl; split; done.
Qed.

Lemma migrateState_completes_iff_witness :
  fst (migrateState plain_host {| state := legacy_store; calls := 0 |}) = Normal tt /\
  fst (migrateState plain_host {| state := Obj []; calls := 0 |}) <> Normal tt.
Proof.
  split.
  - apply (proj2 (migrateState_completes_iff plain_host
                    {| state := legacy_store; calls := 0 |})).
    reflexivity.
  - intros H.
    apply (proj1 (migrateState_completes_iff plain_host
                    {| state := Obj []; calls := 0 |})) in H.
    discriminate H.
Defined.

(** X3. Whether it completes or throws, [migrateState] writes nothing but
    [clients], [progress] and [events]: every other property of the store,
    among them the programs and the exercises, is what it was. *)
Theorem migrateState_frame_others (P : Platform) (w : World) (f : string) :
  f <> "clients" -> f <> "progress" -> f <> "events" ->
  get_prop f (state (snd (migrateState P w))) = get_prop f (state w) /\
  get_prop "programs" (state (snd (migrateState P w))) = get_prop "programs" (state w) /\
  get_prop "exercises" (state (snd (migrateState P w))) = get_prop "exercises" (state w).
Proof. intros. repeat split; by apply migrateState_frame. Qed.

Lemma migrateState_frame_others_witness :
  get_prop "programs"
    (state (snd (migrateState plain_host {| state := sample_store; calls := 0 |})))
  = get_prop "programs" sample_store.
Proof.
  exact (proj1 (proj2 (migrateState_frame_others plain_host
                         {| state := sample_store; calls := 0 |} "settings"
                         ltac:(discriminate) ltac:(discriminate) ltac:(discriminate)))).
Defined.

Lemma clients_callback_each P cs i m k cs' m' k' :
  platform_ok P ->
  clients_callback P cs i m k = (true, cs', m', k') ->
  k' = k + length (List.filter (fun c => negb (truthy (get_prop "id" c))) cs) /\
  Forall2 (fun c c' =>
             (truthy (get_prop "id" c) = true -> c' = c) /\
             (forall key, key <> "id" -> get_prop key c' = get_prop key c) /\
             (is_object c = true -> truthy (get_prop "id" c') = true))
          cs cs'.
Proof.
  intros HP. revert i m k cs' m' k'.
  induction cs as [|c cs IH]; intros i m k cs' m' k'; simpl.
  - intros [= <- <- <-]. split; [lia|constructor].
  - destruct (nullish c); [done|].
    destruct (truthy (get_prop "id" c)) eqn:Et;
      destruct (clients_callback P cs _ _ _) as [[[ok1 rest1] m1] k1] eqn:E;
      intros [= -> <- <- <-]; destruct (IH _ _ _ _ _ _ E) as [-> HF];
      cbn [negb length].
    + split; [done|]. constructor; [|done]. repeat split; auto.
    + split; [lia|]. constructor; [|done]. repeat split.
      * intros H. by rewrite Et in H.
      * intros key Hk. by apply get_set_prop_ne.
      * intros Hobj. destruct c as [| |]; [done| |]; simpl;
          rewrite assoc_get_set_eq; by apply generateId_truthy.
Qed.

(** X4. After a migration that completes, on a host whose UUIDs are not
    empty: the clients are as many as before and in the same order; a
    client that had a truthy [id] is unchanged; any other client differs
    from what it was in its [id] at most; and every client object has a
    truthy [id]. *)
Theorem migrateState_clients (P : Platform) (w w' : World) :
  platform_ok P ->
  migrateState P w = (Normal tt, w') ->
  length (collection "clients" (state w')) = length (collection "clients" (state w)) /\
  forall j c,
    collection "clients" (state w) !! j = Some c ->
    exists c',
      collection "clients" (state w') !! j = Some c' /\
      (truthy (get_prop "id" c) = true -> c' = c) /\
      (forall key, key <> "id" -> get_prop key c' = get_prop key c) /\
      (is_object c = true -> truthy (get_prop "id" c') = true).
Proof.
  intros HP Hrun.
  destruct (migrateState_collections P w w' Hrun) as (cs' & m & Ecb & Hc & _).
  destruct (clients_callback_each P _ _ _ _ _ _ _ HP Ecb) as [_ HF]. rewrite Hc.
  split; [symmetry; by eapply Forall2_length|].
  intros j c Hj. destruct (Forall2_lookup_l _ _ _ _ _ HF Hj) as (c' & Hj' & H).
  eauto.
Qed.

Lemma migrateState_clients_witness :
  length (collection "clients"
            (state (snd (migrateState plain_host {| state := legacy_store; calls := 0 |}))))
  = 2.
Proof.
  refine (proj1 (migrateState_clients plain_host {| state := legacy_store; calls := 0 |}
                   (snd (migrateState plain_host {| state := legacy_store; calls := 0 |}))
                   _ _)).
  - intros uuid k H. discriminate H.
  - reflexivity.
Defined.

(** X5. A migration that completes generates exactly one identifier for
    each client without a truthy [id], and none for the others: a store
    whose clients all have ids is migrated without a call of
    [generateId]. *)
Theorem migrateState_ids_generated (P : Platform) (w w' : World) :
  platform_ok P ->
  migrateState P w = (Normal tt, w') ->
  calls w' =
  calls w + length (List.filter (fun c => negb (truthy (get_prop "id" c)))
                      (collection "clients" (state w))).
Proof.
  intros HP Hrun.
  destruct (migrateState_collections P w w' Hrun) as (cs' & m & Ecb & _).
  by destruct (clients_callback_each P _ _ _ _ _ _ _ HP Ecb) as [-> _].
Qed.

Lemma migrateState_ids_generated_witness :
  calls (snd (migrateState plain_host {| state := sample_store; calls := 7 |})) = 7.
Proof.
  refine (migrateState_ids_generated plain_host {| state := sample_store; calls := 7 |}
            (snd (migrateState plain_host {| state := sample_store; calls := 7 |})) _ _).
  - intros uuid k H. discriminate H.
  - reflexivity.
Defined.

(** ** What migration does to the records *)

(** X6. A [clientIndex] that is not a number (a string such as ["1"], or no
    [clientIndex] at all) is never resolved: a migration that completes
    keeps such a record, object or array, whatever its [clientId],
    without its [clientIndex] and with the [clientId] it had, and keeps a
    record object without [clientIndex] exactly as it is, even when it has
    no [clientId] either. *)
Theorem record_without_numeric_index_kept (P : Platform) (w w' : World)
    (field : string) (r : value) :
  field = "progress" \/ field = "events" ->
  r ∈ collection field (state w) ->
  is_object r = true ->
  is_number (get_prop "clientIndex" r) = false ->
  migrateState P w = (Normal tt, w') ->
  without "clientIndex" r ∈ collection field (state w') /\
  get_prop "clientId" (without "clientIndex" r) = get_prop "clientId" r /\
  (forall ps, r = Obj ps -> has_keyb "clientIndex" ps = false ->
     r ∈ collection field (state w')).
Proof.
  intros Hfield Hr Hobj Hnum Hrun.
  destruct (migrateState_collections P w w' Hrun) as (cs' & m & _ & _ & Hp & He).
  assert (resolved m r = r) as Hres.
  { unfold resolved. by rewrite Hnum, andb_false_r. }
  assert (truthy r = true) as Ht by (by destruct r).
  assert (without "clientIndex" r ∈ collection field (state w')) as Hin.
  { rewrite <- Hres at 1.
    destruct Hfield as [-> | ->]; [rewrite Hp|rewrite He];
      (apply elem_of_migrated; [done|by rewrite Hres]). }
  split; [done|]. split.
  - apply get_without_ne; [apply index_key_clientId|done].
  - intros ps -> Hno. unfold without in Hin. simpl in Hin.
    by rewrite assoc_del_absent in Hin.
Qed.

Lemma record_without_numeric_index_kept_witness :
  Obj [("date", str "2024-01-01"); ("weight", str "70")]
    ∈ collection "progress"
        (state (snd (migrateState plain_host {| state := orphan_store; calls := 0 |}))).
Proof.
  refine (proj2 (proj2 (record_without_numeric_index_kept plain_host
                          {| state := orphan_store; calls := 0 |}
                          (snd (migrateState plain_host
                                  {| state := orphan_store; calls := 0 |}))
                          "progress"
                          (Obj [("date", str "2024-01-01"); ("weight", str "70")])
                          _ _ _ _ _)) _ eq_refl _).
  - left. reflexivity.
  - apply list_elem_of_here.
  - reflexivity.
  - reflexivity.
  - reflexivity.
  - reflexivity.
Defined.

Lemma legacy_resolution (P : Platform) (w w' : World)
    (field : string) (r c : value) (x : number) (i : nat) :
  platform_ok P ->
  field = "progress" \/ field = "events" ->
  r ∈ collection field (state w) ->
  truthy (get_prop "clientId" r) = false ->
  get_prop "clientIndex" r = Num x ->
  index_of_number x = Some i ->
  collection "clients" (state w) !! i = Some c ->
  is_object c = true ->
  migrateState P w = (Normal tt, w') ->
  exists c',
    collection "clients" (state w') !! i = Some c' /\
    (truthy (get_prop "id" c) = true -> c' = c) /\
    truthy (get_prop "id" c') = true /\
    without "clientIndex" (spread_with r "clientId" (get_prop "id" c'))
      ∈ collection field (state w').
Proof.
  intros HP Hfield Hr Hcid Hidx Hi Hc Hobj Hrun.
  destruct (migrateState_collections P w w' Hrun) as (cs' & m & Ecb & Hcs & Hp & He).
  destruct (clients_callback_each P _ _ _ _ _ _ _ HP Ecb) as [_ HF].
  destruct (Forall2_lookup_l _ _ _ _ _ HF Hc) as (c' & Hc' & Hsame & _ & Hid).
  specialize (Hid Hobj). exists c'. rewrite Hcs.
  split; [done|]. split; [done|]. split; [done|].
  assert (m !! i = Some (get_prop "id" c')) as Hm.
  { destruct (clients_callback_map P _ _ _ _ _ _ _ Ecb) as [_ Hmap].
    rewrite Hmap, decide_True, Nat.sub_0_r, Hc'; [done|].
    apply lookup_lt_Some in Hc. lia. }
  assert (resolved m r = spread_with r "clientId" (get_prop "id" c')) as Hres.
  { unfold resolved, map_get. rewrite Hcid, Hidx. cbn [negb andb is_number].
    rewrite Hi, Hm. cbn [from_option id]. by rewrite Hid. }
  rewrite <- Hres.
  destruct Hfield as [-> | ->]; [rewrite Hp|rewrite He];
    (apply elem_of_migrated; [done|by rewrite Hres]).
Qed.

(** X7. A legacy record is resolved against whatever client object is at
    its position: on a host whose UUIDs are not empty, when the numeric
    [clientIndex] of a record without [clientId] is the position of a
    client object, a migration that completes leaves the record with the
    [id] that this client has afterwards, which is the [id] it already had
    when that was truthy. *)
Theorem legacy_reference_to_any_client (P : Platform) (w w' : World)
    (field : string) (r c : value) (x : number) (i : nat) :
  platform_ok P ->
  field = "progress" \/ field = "events" ->
  r ∈ collection field (state w) ->
  truthy (get_prop "clientId" r) = false ->
  get_prop "clientIndex" r = Num x ->
  index_of_number x = Some i ->
  collection "clients" (state w) !! i = Some c ->
  is_object c = true ->
  migrateState P w = (Normal tt, w') ->
  exists c',
    collection "clients" (state w') !! i = Some c' /\
    (truthy (get_prop "id" c) = true -> c' = c) /\
    truthy (get_prop "id" c') = true /\
    without "clientIndex" (spread_with r "clientId" (get_prop "id" c'))
      ∈ collection field (state w').
Proof. apply legacy_resolution. Qed.

Lemma legacy_reference_to_any_client_witness :
  Obj [("date", str "2024-03-01"); ("clientId", str "c2")]
    ∈ collection "progress"
        (state (snd (migrateState plain_host
                       {| state :=
                            store_with
                              [Obj [("id", str "c1")]; Obj [("id", str "c2")]]
                              [Obj [("clientIndex", int 1); ("date", str "2024-03-01")]]
                              [];
                          calls := 0 |}))).
Proof.
  destruct (legacy_reference_to_any_client plain_host
              {| state :=
                   store_with [Obj [("id", str "c1")]; Obj [("id", str "c2")]]
                     [Obj [("clientIndex", int 1); ("date", str "2024-03-01")]] [];
                 calls := 0 |}
              (snd (migrateState plain_host
                      {| state :=
                           store_with [Obj [("id", str "c1")]; Obj [("id", str "c2")]]
                             [Obj [("clientIndex", int 1); ("date", str "2024-03-01")]] [];
                         calls := 0 |}))
              "progress"
              (Obj [("clientIndex", int 1); ("date", str "2024-03-01")])
              (Obj [("id", str "c2")]) (Finite false 1 0) 1)
    as (c' & Hc' & _ & _ & Hin).
  - intros uuid k H. discriminate H.
  - left. reflexivity.
  - apply list_elem_of_here.
  - reflexivity.
  - reflexivity.
  - reflexivity.
  - reflexivity.
  - reflexivity.
  - reflexivity.
  - vm_compute in Hc'. injection Hc' as <-. exact Hin.
Defined.

(** ** More on deleting a client *)

Lemma existsb_nullish_filter (f : value -> bool) xs :
  existsb nullish xs = false -> existsb nullish (List.filter f xs) = false.
Proof.
  induction xs as [|x xs IH]; simpl; [done|].
  intros [Hx Hxs]%orb_false_iff. destruct (f x); simpl; rewrite ?Hx; auto.
Qed.

Lemma filter_filter_same {A} (f : A -> bool) xs :
  List.filter f (List.filter f xs) = List.filter f xs.
Proof.
  induction xs as [|x xs IH]; simpl; [done|].
  destruct (f x) eqn:E; simpl; rewrite ?E, ?IH; done.
Qed.

Lemma filter_out_again field k p w w1 w2 :
  filter_out field k p w = (Normal tt, w1) ->
  get_prop field (state w2) = get_prop field (state w1) ->
  filter_out field k p w2 = (Normal tt, w2).
Proof.
  intros (xs & ps & E & Hn & ->)%filter_out_normal Hsame. simpl in Hsame.
  rewrite get_set_prop_eq in Hsame by eauto using get_prop_array.
  unfold filter_out, assign.
  rewrite Hsame, existsb_nullish_filter, filter_filter_same by done.
  rewrite set_prop_same; eauto using get_prop_array. by destruct w2.
Qed.

Lemma deleteClient_again (p : prim) (w w1 : World) :
  deleteClient p w = (Normal tt, w1) ->
  deleteClient p w1 = (Normal tt, w1).
Proof.
  intros (wa & wb & H1 & H2 & H3)%deleteClient_normal.
  pose proof (filter_out_frame "progress" "clientId" p wa "clients" ltac:(done)) as Fc2.
  pose proof (filter_out_frame "events" "clientId" p wb "clients" ltac:(done)) as Fc3.
  pose proof (filter_out_frame "events" "clientId" p wb "progress" ltac:(done)) as Fp3.
  rewrite H2 in Fc2. rewrite H3 in Fc3, Fp3. simpl in Fc2, Fc3, Fp3.
  unfold deleteClient, bind.
  rewrite (filter_out_again _ _ _ _ _ w1 H1) by congruence.
  rewrite (filter_out_again _ _ _ _ _ w1 H2) by congruence.
  by rewrite (filter_out_again _ _ _ _ _ w1 H3).
Qed.

(** X8. Deleting a client is idempotent: when the delete handler has
    returned, running it again with the same id returns and leaves the
    store exactly as the first run left it. *)
Theorem deleteClient_idempotent (p : prim) (w w1 : World) :
  deleteClient p w = (Normal tt, w1) ->
  deleteClient p w1 = (Normal tt, w1).
Proof. apply deleteClient_again. Qed.

Lemma deleteClient_idempotent_witness :
  deleteClient (Str "c1")
    (snd (deleteClient (Str "c1") {| state := sample_store; calls := 0 |}))
  = deleteClient (Str "c1") {| state := sample_store; calls := 0 |}.
Proof.
  rewrite (deleteClient_idempotent (Str "c1") {| state := sample_store; calls := 0 |}
             (snd (deleteClient (Str "c1") {| state := sample_store; calls := 0 |}))
             eq_refl).
  reflexivity.
Defined.

Lemma filter_keeps_all {A} (f : A -> bool) xs :
  (forall x, x ∈ xs -> f x = true) -> List.filter f xs = xs.
Proof.
  induction xs as [|x xs IH]; simpl; [done|]. intros H.
  rewrite (H x) by apply list_elem_of_here. f_equal. apply IH.
  intros y Hy. apply H. by apply list_elem_of_further.
Qed.

Lemma deleteClient_collections (p : prim) (w w' : World) :
  deleteClient p w = (Normal tt, w') ->
  collection "clients" (state w')
    = List.filter (fun c => negb (strict_eq (get_prop "id" c) p))
        (collection "clients" (state w)) /\
  collection "progress" (state w')
    = List.filter (fun r => negb (strict_eq (get_prop "clientId" r) p))
        (collection "progress" (state w)) /\
  collection "events" (state w')
    = List.filter (fun r => negb (strict_eq (get_prop "clientId" r) p))
        (collection "events" (state w)).
Proof.
  intros (w1 & w2 & H1 & H2 & H3)%deleteClient_normal.
  pose proof (filter_out_collection_ne "clients" "id" p w "progress" ltac:(done)) as Fp1.
  pose proof (filter_out_collection_ne "clients" "id" p w "events" ltac:(done)) as Fe1.
  pose proof (filter_out_collection_ne "progress" "clientId" p w1 "clients" ltac:(done)) as Fc2.
  pose proof (filter_out_collection_ne "progress" "clientId" p w1 "events" ltac:(done)) as Fe2.
  pose proof (filter_out_collection_ne "events" "clientId" p w2 "clients" ltac:(done)) as Fc3.
  pose proof (filter_out_collection_ne "events" "clientId" p w2 "progress" ltac:(done)) as Fp3.
  rewrite H1 in Fp1, Fe1. rewrite H2 in Fc2, Fe2. rewrite H3 in Fc3, Fp3. simpl in *.
  rewrite Fc3, Fc2, Fp3, (filter_out_collection _ _ _ _ _ H1),
    (filter_out_collection _ _ _ _ _ H2), (filter_out_collection _ _ _ _ _ H3).
  by rewrite Fp1, Fe2, Fe1.
Qed.

(** X9. What the delete handler leaves, when it returns: the clients whose
    [id] is not strictly equal to the given id, and the progress records
    and calendar events whose [clientId] is not, each in the order it had.
    Every other client and every record of another client stays. *)
Theorem deleteClient_keeps_others (p : prim) (w w' : World) :
  deleteClient p w = (Normal tt, w') ->
  collection "clients" (state w')
    = List.filter (fun c => negb (strict_eq (get_prop "id" c) p))
        (collection "clients" (state w)) /\
  collection "progress" (state w')
    = List.filter (fun r => negb (strict_eq (get_prop "clientId" r) p))
        (collection "progress" (state w)) /\
  collection "events" (state w')
    = List.filter (fun r => negb (strict_eq (get_prop "clientId" r) p))
        (collection "events" (state w)).
Proof. apply deleteClient_collections. Qed.

Lemma deleteClient_keeps_others_witness :
  collection "events"
    (state (snd (deleteClient (Str "c1") {| state := sample_store; calls := 0 |})))
  = collection "events" sample_store.
Proof.
  rewrite (proj2 (proj2 (deleteClient_keeps_others (Str "c1")
                           {| state := sample_store; calls := 0 |}
                           (snd (deleteClient (Str "c1")
                                   {| state := sample_store; calls := 0 |}))
                           eq_refl))).
  reflexivity.
Defined.

(** X10. Deleting an id that no client and no record carries changes none
    of the three collections: when the handler returns, the clients, the
    progress records and the calendar events are the sequences they
    were. *)
Theorem deleteClient_unknown_id (p : prim) (w w' : World) :
  (forall c, c ∈ collection "clients" (state w) -> strict_eq (get_prop "id" c) p = false) ->
  (forall r, r ∈ (collection "progress" (state w) ++ collection "events" (state w))%list ->
             strict_eq (get_prop "clientId" r) p = false) ->
  deleteClient p w = (Normal tt, w') ->
  collection "clients" (state w') = collection "clients" (state w) /\
  collection "progress" (state w') = collection "progress" (state w) /\
  collection "events" (state w') = collection "events" (state w).
Proof.
  intros Hc Hr (w1 & w2 & H1 & H2 & H3)%deleteClient_normal.
  pose proof (filter_out_collection_ne "clients" "id" p w "progress" ltac:(done)) as Fp1.
  pose proof (filter_out_collection_ne "clients" "id" p w "events" ltac:(done)) as Fe1.
  pose proof (filter_out_collection_ne "progress" "clientId" p w1 "clients" ltac:(done)) as Fc2.
  pose proof (filter_out_collection_ne "progress" "clientId" p w1 "events" ltac:(done)) as Fe2.
  pose proof (filter_out_collection_ne "events" "clientId" p w2 "clients" ltac:(done)) as Fc3.
  pose proof (filter_out_collection_ne "events" "clientId" p w2 "progress" ltac:(done)) as Fp3.
  rewrite H1 in Fp1, Fe1. rewrite H2 in Fc2, Fe2. rewrite H3 in Fc3, Fp3. simpl in *.
  rewrite Fc3, Fc2, Fp3, (filter_out_collection _ _ _ _ _ H1),
    (filter_out_collection _ _ _ _ _ H2), (filter_out_collection _ _ _ _ _ H3).
  rewrite Fp1, Fe2, Fe1. repeat split; apply filter_keeps_all; intros x Hx;
    apply negb_true_iff; [by apply Hc|apply Hr, elem_of_app; auto..].
Qed.

Lemma deleteClient_unknown_id_witness :
  collection "clients"
    (state (snd (deleteClient (Str "nobody") {| state := sample_store; calls := 0 |})))
  = collection "clients" sample_store.
Proof.
  refine (proj1 (deleteClient_unknown_id (Str "nobody")
                   {| state := sample_store; calls := 0 |}
                   (snd (deleteClient (Str "nobody")
                           {| state := sample_store; calls := 0 |})) _ _ eq_refl)).
  - intros c Hc. vm_compute in Hc.
    repeat (apply elem_of_cons in Hc as [->|Hc]; [reflexivity|]).
    by apply elem_of_nil in Hc.
  - intros r Hr. vm_compute in Hr.
    repeat (apply elem_of_cons in Hr as [->|Hr]; [reflexivity|]).
    by apply elem_of_nil in Hr.
Defined.

(** ** Adding and deleting by position *)

Lemma delete_out_of_range {A} (xs : list A) i : length xs <= i -> delete i xs = xs.
Proof.
  revert i. induction xs as [|x xs IH]; intros [|i]; simpl; try done; try lia.
  intros H. f_equal. apply IH. lia.
Qed.

Lemma push_then_splice field x w xs ps :
  get_prop field (state w) = Arr xs ps ->
  (push field x ;;; splice field (length xs)) w = (Normal tt, w).
Proof.
  intros H. unfold bind, push, splice, assign. rewrite H. simpl.
  rewrite get_set_prop_eq by eauto using get_prop_array.
  rewrite delete_middle, app_nil_r, set_set_prop.
  rewrite set_prop_same; eauto using get_prop_array. by destruct w.
Qed.

Lemma splice_out_of_range field idx w xs ps :
  get_prop field (state w) = Arr xs ps -> length xs <= idx ->
  splice field idx w = (Normal tt, w).
Proof.
  intros H Hle. unfold splice, assign. rewrite H, delete_out_of_range by done.
  rewrite set_prop_same; eauto using get_prop_array. by destruct w.
Qed.

(** X11. An added entry can be taken back: on a store whose events
    (programs, exercises) are an array of [n] entries, submitting the
    calendar form (program form, exercise form) and then deleting at
    position [n] leaves the store exactly as it was, whether or not the
    form was accepted. *)
Theorem add_then_delete_last (P : Platform) (w : World) (field : string) (xs : list value)
    (ps : fields) (a b c : string) (pieces : list string) :
  get_prop field (state w) = Arr xs ps ->
  (field = "events" ->
     (addEvent a b c ;;; run P (DeleteEvent (length xs))) w = (Normal tt, w)) /\
  (field = "programs" ->
     (addProgram a pieces ;;; run P (DeleteProgram (length xs))) w
     = (Normal tt, w)) /\
  (field = "exercises" ->
     (addExercise a b ;;; run P (DeleteExercise (length xs))) w
     = (Normal tt, w)).
Proof.
  intros H. repeat split; intros ->; simpl.
  - unfold addEvent.
    destruct (String.eqb a ""); [|destruct (String.eqb b "")];
      try (by eapply push_then_splice);
      unfold bind, ret; by eapply splice_out_of_range.
  - unfold addProgram.
    destruct (String.eqb a ""); try (by eapply push_then_splice);
      unfold bind, ret; by eapply splice_out_of_range.
  - unfold addExercise.
    destruct (String.eqb a ""); try (by eapply push_then_splice);
      unfold bind, ret; by eapply splice_out_of_range.
Qed.

Lemma add_then_delete_last_witness :
  (addEvent "c1" "2024-05-01" "check" ;;; run plain_host (DeleteEvent 1))
    {| state := sample_store; calls := 0 |}
  = (Normal tt, {| state := sample_store; calls := 0 |}).
Proof.
  refine (proj1 (add_then_delete_last plain_host
                   {| state := sample_store; calls := 0 |} "events"
                   [Obj [("clientId", str "c2"); ("date", str "2024-02-01");
                         ("note", str "intro")]] [] "c1" "2024-05-01" "check" [] _) _);
    reflexivity.
Defined.

(** X12. Deleting by position, as the program, exercise and event lists do
    ([splice(idx, 1)]): on an array, a position past the end changes
    nothing; a position inside removes that one entry, the entries before
    it stay where they are and the entries after it move up by one. *)
Theorem delete_by_position (field : string) (idx : nat) (w : World)
    (xs : list value) (ps : fields) :
  get_prop field (state w) = Arr xs ps ->
  exists w',
    splice field idx w = (Normal tt, w') /\
    (length xs <= idx -> w' = w) /\
    (idx < length xs -> length (collection field (state w')) = length xs - 1) /\
    (forall j, j < idx -> collection field (state w') !! j = xs !! j) /\
    (forall j, idx <= j -> collection field (state w') !! j = xs !! S j).
Proof.
  intros H. eexists. split.
  { unfold splice, assign. rewrite H. reflexivity. }
  assert (collection field (set_prop field (Arr (delete idx xs) ps) (state w))
          = delete idx xs) as Hc.
  { unfold collection. rewrite get_set_prop_eq by eauto using get_prop_array. done. }
  cbn [state]. rewrite Hc. repeat split.
  - intros Hle. rewrite delete_out_of_range by done.
    rewrite set_prop_same; eauto using get_prop_array. by destruct w.
  - intros Hlt. rewrite length_delete; [done|]. by apply lookup_lt_is_Some_2.
  - intros j Hj. by apply list_lookup_delete_lt.
  - intros j Hj. by apply list_lookup_delete_ge.
Qed.

Lemma delete_by_position_witness :
  splice "events" 3 {| state := sample_store; calls := 0 |}
  = (Normal tt, {| state := sample_store; calls := 0 |}).
Proof.
  destruct (delete_by_position "events" 3 {| state := sample_store; calls := 0 |}
              [Obj [("clientId", str "c2"); ("date", str "2024-02-01");
                    ("note", str "intro")]] [] eq_refl)
    as (w' & Hrun & Hout & _).
  rewrite Hrun. f_equal. apply Hout. simpl. lia.
Defined.

(** ** The invariants under the mutation handlers *)

Lemma invariants_iff st :
  invariants st = true <->
  is_object st = true /\ (forall es ps, st <> Arr es ps) /\
  collections_ok st = true /\
  forallb client_ok (collection "clients" st) = true /\
  NoDup (client_ids st) /\
  integrity st = true /\
  settings_ok (get_prop "settings" st) = true.
Proof.
  unfold invariants. destruct st as [| |fs].
  - split; [done|]. by intros [? _].
  - split; [done|]. intros (_ & H & _). by destruct (H elems props).
  - rewrite !andb_true_iff, bool_decide_eq_true. naive_solver.
Qed.

Lemma set_prop_keeps_object k x st :
  is_object st = true /\ (forall es ps, st <> Arr es ps) ->
  is_object (set_prop k x st) = true /\ (forall es ps, set_prop k x st <> Arr es ps).
Proof. destruct st; simpl; [by intros [? _]| |done]. intros [_ H]. by destruct (H elems props). Qed.

Lemma push_state field x w w' :
  push field x w = (Normal tt, w') ->
  exists xs ps,
    get_prop field (state w) = Arr xs ps /\
    state w' = set_prop field (Arr (xs ++ [x]) ps) (state w).
Proof.
  unfold push, assign.
  destruct (get_prop field (state w)) as [|xs ps|] eqn:E; try done.
  intros [= <-]. eauto.
Qed.

Lemma splice_state field idx w w' :
  splice field idx w = (Normal tt, w') ->
  exists xs ps,
    get_prop field (state w) = Arr xs ps /\
    state w' = set_prop field (Arr (delete idx xs) ps) (state w).
Proof.
  unfold splice, assign.
  destruct (get_prop field (state w)) as [|xs ps|] eqn:E; try done.
  intros [= <-]. eauto.
Qed.

(** The invariants speak of [clients], [progress], [events] and [settings]
    only. *)
Lemma invariants_same st st' :
  is_object st' = true /\ (forall es ps, st' <> Arr es ps) ->
  get_prop "clients" st' = get_prop "clients" st ->
  get_prop "progress" st' = get_prop "progress" st ->
  get_prop "events" st' = get_prop "events" st ->
  get_prop "settings" st' = get_prop "settings" st ->
  invariants st = true -> invariants st' = true.
Proof.
  intros Hobj Hc Hp He Hs. rewrite !invariants_iff.
  unfold collections_ok, client_ids, integrity, client_ids, collection.
  rewrite Hc, Hp, He, Hs. naive_solver.
Qed.

Lemma array_ok_set k field v st :
  has_prop field st = true -> array_ok v = true ->
  array_ok (get_prop k st) = true ->
  array_ok (get_prop k (set_prop field v st)) = true.
Proof.
  intros Hhas Hv Hk. destruct (decide (k = field)) as [->|Hne].
  - by rewrite get_set_prop_eq.
  - by rewrite get_set_prop_ne.
Qed.

Lemma invariants_write st field xs ps :
  field <> "settings" ->
  invariants st = true ->
  has_prop field st = true ->
  array_ok (Arr xs ps) = true ->
  (field = "clients" -> forallb client_ok xs = true /\ NoDup (omap string_id xs)) ->
  integrity (set_prop field (Arr xs ps) st) = true ->
  invariants (set_prop field (Arr xs ps) st) = true.
Proof.
  intros Hns Hinv Hhas Hok Hcl Hint. apply invariants_iff in Hinv.
  destruct Hinv as (Ho1 & Ho2 & Hcok & Hcs & Hnd & _ & Hset).
  apply invariants_iff. destruct (set_prop_keeps_object field (Arr xs ps) st) as [??]; [done|].
  split; [done|]. split; [done|].
  unfold collections_ok in *. rewrite !andb_true_iff in Hcok.
  destruct Hcok as [[Hc Hp] He].
  split.
  { rewrite !andb_true_iff. repeat split; by apply array_ok_set. }
  rewrite (get_set_prop_ne "settings") by done.
  destruct (decide (field = "clients")) as [->|Hnc].
  - destruct (Hcl eq_refl) as [Hf Hn]. unfold client_ids.
    rewrite collection_set_eq' by done. done.
  - unfold client_ids in *. rewrite collection_set_ne by done. done.
Qed.

Lemma NoDup_omap_filter (f : value -> bool) cs :
  NoDup (omap string_id cs) -> NoDup (omap string_id (List.filter f cs)).
Proof.
  induction cs as [|c cs IH]; [done|]. cbn [omap list_omap List.filter].
  destruct (f c), (string_id c) as [s|] eqn:Es; cbn [omap list_omap];
    rewrite ?Es, ?NoDup_cons; try naive_solver.
  intros [Hs Hnd]. split; [|auto]. intros Hin. apply Hs.
  apply list_elem_of_omap in Hin as (x & [Hx _]%elem_of_bool_filter & Hsx).
  apply list_elem_of_omap. eauto.
Qed.

Lemma forallb_filter_sub {A} (q f : A -> bool) xs :
  forallb q xs = true -> forallb q (List.filter f xs) = true.
Proof.
  induction xs as [|x xs IH]; simpl; [done|].
  intros [Hx Hxs]%andb_true_iff. destruct (f x); simpl; rewrite ?Hx; auto.
Qed.

Lemma existsb_nullish_delete idx xs :
  existsb nullish xs = false -> existsb nullish (delete idx xs) = false.
Proof.
  revert idx. induction xs as [|x xs IH]; intros [|idx]; simpl; try done.
  - by intros [_ ?]%orb_false_iff.
  - intros [-> ?]%orb_false_iff. simpl. auto.
Qed.

Lemma invariants_collections st :
  invariants st = true ->
  exists cs cps rs rps es eps,
    get_prop "clients" st = Arr cs cps /\ existsb nullish cs = false /\
    get_prop "progress" st = Arr rs rps /\ existsb nullish rs = false /\
    get_prop "events" st = Arr es eps /\ existsb nullish es = false.
Proof.
  intros (_ & _ & Hok & _)%invariants_iff. unfold collections_ok, array_ok in Hok.
  rewrite !andb_true_iff in Hok. destruct Hok as [[Hc Hp] He].
  destruct (get_prop "clients" st) as [|cs cps|]; try done.
  destruct (get_prop "progress" st) as [|rs rps|]; try done.
  destruct (get_prop "events" st) as [|es eps|]; try done.
  apply negb_true_iff in Hc, Hp, He. naive_solver.
Qed.

Lemma filter_out_keeps_object field k p w w' :
  filter_out field k p w = (Normal tt, w') ->
  is_object (state w) = true /\ (forall es ps, state w <> Arr es ps) ->
  is_object (state w') = true /\ (forall es ps, state w' <> Arr es ps).
Proof.
  intros (xs & ps & _ & _ & ->)%filter_out_normal. apply set_prop_keeps_object.
Qed.

Lemma invariants_deleteClient p w w' :
  deleteClient p w = (Normal tt, w') ->
  invariants (state w) = true -> invariants (state w') = true.
Proof.
  intros Hrun Hinv. apply invariants_iff in Hinv as Hparts.
  destruct Hparts as (Ho1 & Ho2 & _ & Hcl & Hnd & Hint & Hset).
  apply invariants_iff.
  destruct (deleteClient_normal _ _ _ Hrun) as (w1 & w2 & H1 & H2 & H3).
  destruct (filter_out_keeps_object _ _ _ _ _ H3
              (filter_out_keeps_object _ _ _ _ _ H2
                 (filter_out_keeps_object _ _ _ _ _ H1 (conj Ho1 Ho2)))) as [??].
  split; [done|]. split; [done|].
  split. { apply deleteClient_returns with p. eauto using deleteClient_again. }
  destruct (deleteClient_collections p w w' Hrun) as (Cc & _ & _).
  unfold client_ids in *. rewrite Cc.
  split; [by apply forallb_filter_sub|]. split; [by apply NoDup_omap_filter|].
  split; [by eapply integrity_deleteClient|].
  pose proof (deleteClient_frame_field p w "settings" ltac:(done) ltac:(done) ltac:(done)) as F.
  rewrite Hrun in F. simpl in F. by rewrite F.
Qed.

Lemma invariants_addClient P name age weight w w' :
  platform_ok P ->
  fresh_call P w (AddClient name age weight) = true ->
  addClient P name age weight w = (Normal tt, w') ->
  invariants (state w) = true -> invariants (state w') = true.
Proof.
  intros HP Hfresh Hrun Hinv.
  pose proof (fun H => integrity_addClient P name age weight w w' Hrun H) as Hint.
  unfold addClient in Hrun. simpl in Hfresh.
  destruct (String.eqb name ""); [by injection Hrun as <-|]. simpl in Hfresh.
  apply negb_true_iff, bool_decide_eq_false in Hfresh.
  destruct (nullish (get_prop "clients" (state w))); [done|].
  apply push_state in Hrun as (cs & cps & Ec & Hst). simpl in Ec, Hst.
  rewrite Hst in Hint |- *.
  destruct (invariants_collections _ Hinv) as (cs0 & cps0 & _ & _ & _ & _ & Ec0 & Nc & _).
  rewrite Ec in Ec0. injection Ec0 as <- <-.
  apply invariants_iff in Hinv as Hparts.
  destruct Hparts as (_ & _ & _ & Hcl & Hnd & Hi & _).
  unfold client_ids, collection in Hcl, Hnd, Hfresh. rewrite Ec in Hcl, Hnd, Hfresh.
  pose proof (generateId_nonempty P "client" (calls w) HP) as Hne.
  apply String.eqb_neq in Hne.
  apply invariants_write; [done|done|eauto using get_prop_array| | |auto].
  - simpl. by rewrite existsb_app, Nc.
  - intros _. split.
    + rewrite forallb_app, Hcl. simpl. unfold string_id. simpl. by rewrite Hne.
    + rewrite omap_app. cbn [omap list_omap]. unfold string_id at 2. simpl.
      rewrite Hne. apply NoDup_app. split; [done|]. split; [|apply NoDup_singleton].
      intros s Hs ->%list_elem_of_singleton. done.
Qed.

Lemma clients_callback_client_ok P cs i m k cs' m' k' :
  platform_ok P ->
  clients_callback P cs i m k = (true, cs', m', k') ->
  forallb plain_object cs = true -> forallb id_ok cs = true ->
  forallb client_ok cs' = true.
Proof.
  intros HP. revert i m k cs' m' k'.
  induction cs as [|c cs IH]; intros i m k cs' m' k'; simpl.
  { by intros [= <- <- <-]. }
  destruct (nullish c); [done|].
  destruct (truthy (get_prop "id" c)) eqn:Et;
    destruct (clients_callback P cs _ _ _) as [[[ok1 rest1] m1] k1] eqn:E;
    intros [= -> <- <- <-] [Hc Hcs]%andb_true_iff [Hid Hids]%andb_true_iff;
    cbn [forallb]; rewrite (IH _ _ _ _ _ _ E Hcs Hids), andb_true_r;
    destruct c as [| |ps]; try done.
  - unfold client_ok, string_id, id_ok in *. simpl in *.
    destruct (assoc_get "id" ps) as [[| |b|x|s]| |]; simpl in *; try done;
      first [by rewrite Et in Hid | by destruct (String.eqb _ "")].
  - unfold client_ok, string_id. simpl. rewrite assoc_get_set_eq.
    by rewrite (proj2 (String.eqb_neq _ _) (generateId_nonempty P "client" k HP)).
Qed.

Lemma existsb_nullish_migrated m rs : existsb nullish (migrated m rs) = false.
Proof.
  unfold migrated. induction (List.filter truthy (resolved m <$> rs)) as [|r l IH];
    [done|]. by rewrite fmap_cons.
Qed.

(** A document of the data model, migrated: the invariants hold as soon as
    the ids are distinct. *)
Lemma invariants_migrated P data k w1 :
  platform_ok P ->
  plain_object data = true ->
  collections_ok data = true -> raw_ready data = true ->
  forallb plain_object (collection "clients" data) = true ->
  settings_ok (get_prop "settings" data) = true ->
  migrateState P {| state := data; calls := k |} = (Normal tt, w1) ->
  NoDup (client_ids (state w1)) ->
  invariants (state w1) = true.
Proof.
  intros HP Hobj Hok Hraw Hcs Hset Hrun Hnd.
  pose proof (migrateState_integrity P {| state := data; calls := k |} w1 HP Hraw Hrun)
    as Hint.
  pose proof (migrateState_frame P {| state := data; calls := k |} "settings"
                ltac:(done) ltac:(done) ltac:(done)) as Hs.
  rewrite Hrun in Hs. cbn [snd state] in Hs.
  destruct (migrateState_collections P {| state := data; calls := k |} w1 Hrun)
    as (cs' & m & Ecb & Hc' & Hp' & He').
  cbn [state calls] in Ecb.
  assert (forallb client_ok (collection "clients" (state w1)) = true) as Hcl.
  { rewrite Hc'. eapply clients_callback_client_ok; [done|exact Ecb|done|].
    unfold raw_ready in Hraw. by apply andb_true_iff in Hraw as [? _]. }
  destruct (migrateState_run P {| state := data; calls := k |} Hok)
    as (cs'' & m'' & k'' & Ecb'' & Hrun'').
  cbn [state calls] in Ecb'', Hrun''. rewrite Ecb in Ecb''.
  injection Ecb'' as <- <- <-. rewrite Hrun in Hrun''. injection Hrun'' as Hst.
  apply invariants_iff. rewrite Hs. destruct data as [| |fs]; try done.
  assert (is_object (state w1) = true /\ (forall es ps, state w1 <> Arr es ps)) as [??].
  { rewrite Hst. do 3 apply set_prop_keeps_object. done. }
  repeat split; try done.
  unfold collections_ok in Hok |- *. rewrite !andb_true_iff in Hok.
  destruct Hok as [[Hc Hp] He].
  assert (has_prop "clients" (Obj fs) = true) as Pc.
  { destruct (array_ok_collection _ _ Hc) as (? & E & _). eauto using get_prop_array. }
  assert (has_prop "progress" (Obj fs) = true) as Pp.
  { destruct (array_ok_collection _ _ Hp) as (? & E & _). eauto using get_prop_array. }
  assert (has_prop "events" (Obj fs) = true) as Pe.
  { destruct (array_ok_collection _ _ He) as (? & E & _). eauto using get_prop_array. }
  rewrite Hst. cbn [state].
  rewrite (get_set_prop_ne "clients" "events"), (get_set_prop_ne "clients" "progress"),
    (get_set_prop_ne "progress" "events") by done.
  rewrite (get_set_prop_eq "clients"), (get_set_prop_eq "progress"),
    (get_set_prop_eq "events") by auto using has_set_prop.
  unfold array_ok. rewrite !existsb_nullish_migrated.
  rewrite Hc' in Hcl. rewrite (existsb_nullish_false _ _ Hcl); [done|].
  by intros [[]| |].
Qed.

Lemma invariants_settings st s' :
  invariants st = true -> settings_ok s' = true ->
  invariants (set_prop "settings" s' st) = true.
Proof.
  rewrite !invariants_iff. intros (Ho1 & Ho2 & Hok & Hcl & Hnd & Hint & Hset) Hs'.
  assert (has_prop "settings" st = true) as Hhas.
  { apply get_prop_present. by destruct (get_prop "settings" st). }
  destruct (set_prop_keeps_object "settings" s' st) as [??]; [done|].
  unfold collections_ok, client_ids, integrity, client_ids, collection in *.
  rewrite !(get_set_prop_ne _ "settings"), get_set_prop_eq by done. naive_solver.
Qed.

Lemma settings_ok_set k name v :
  k = "theme" \/ k = "language" ->
  name <> "" -> settings_ok v = true -> settings_ok (set_prop k (Str name) v) = true.
Proof.
  intros Hk Hne%String.eqb_neq. destruct v as [| |sfs]; try done.
  unfold settings_ok. simpl. intros [Ht Hl]%andb_true_iff.
  destruct Hk as [-> | ->].
  - rewrite assoc_get_set_eq, assoc_get_set_ne, Hl by done. simpl. by rewrite Hne.
  - rewrite assoc_get_set_eq, assoc_get_set_ne, Ht by done. simpl. by rewrite Hne.
Qed.

(** X13. Every call on the store keeps the invariants, the restore and the
    two settings handlers included: on a host whose UUIDs are not empty,
    when the store satisfies the invariants (clients are objects with
    distinct non-empty string ids, every record refers to a client and has
    no [clientIndex], settings are populated), it still satisfies them
    after a call that returns, provided that: the [clientId] given to the
    progress and calendar forms is the id of a client (the select offers
    no other); the id generated for a new client is not the id of a client
    already in the store; the theme or language chosen is not the empty
    string; and a restored document is an object with populated settings
    and arrays without [null] entries whose clients are objects with
    string ids, whose records are legacy records or refer to a client, and
    whose client ids are distinct once the migration has generated the
    missing ones.  The handlers check none of these. *)
Theorem invariants_preserved (P : Platform) (m : mutation) (w w' : World) :
  platform_ok P ->
  invariants (state w) = true ->
  valid_call (state w) m = true ->
  fresh_call P w m = true ->
  typed_call m = true ->
  run P m w = (Normal tt, w') ->
  invariants (state w') = true.
Proof.
  intros HP Hinv Hvalid Hfresh Htyped Hrun.
  apply invariants_iff in Hinv as Hparts.
  destruct Hparts as (Ho1 & Ho2 & _ & _ & _ & Hint & Hset).
  destruct (invariants_collections _ Hinv)
    as (cs & cps & rs & rps & es & eps & Ec & Nc & Ep & Np & Ee & Ne).
  destruct m; simpl in Hrun.
  - by eapply invariants_addClient.
  - by eapply invariants_deleteClient.
  - unfold addProgram in Hrun. destruct (String.eqb name ""); [by injection Hrun as <-|].
    apply push_state in Hrun as (xs & ps & E & ->).
    eapply invariants_same; [by apply set_prop_keeps_object|..|exact Hinv];
      by apply get_set_prop_ne.
  - apply splice_state in Hrun as (xs & ps & E & ->).
    eapply invariants_same; [by apply set_prop_keeps_object|..|exact Hinv];
      by apply get_set_prop_ne.
  - unfold addExercise in Hrun. destruct (String.eqb name ""); [by injection Hrun as <-|].
    apply push_state in Hrun as (xs & ps & E & ->).
    eapply invariants_same; [by apply set_prop_keeps_object|..|exact Hinv];
      by apply get_set_prop_ne.
  - apply splice_state in Hrun as (xs & ps & E & ->).
    eapply invariants_same; [by apply set_prop_keeps_object|..|exact Hinv];
      by apply get_set_prop_ne.
  - unfold addProgressRecord in Hrun. simpl in Hvalid.
    destruct (String.eqb clientId ""); [by injection Hrun as <-|].
    destruct (String.eqb date ""); [by injection Hrun as <-|]. simpl in Hvalid.
    assert (integrity (state w') = true) as Hint'.
    { eapply integrity_push_record; [by left| |exact Hrun|done]. simpl. by rewrite Hvalid. }
    apply push_state in Hrun as (xs & ps & E & Hst). rewrite Hst in Hint' |- *.
    rewrite Ep in E. injection E as <- <-.
    apply invariants_write; try done; eauto using get_prop_array.
    simpl. by rewrite existsb_app, Np.
  - unfold addEvent in Hrun. simpl in Hvalid.
    destruct (String.eqb clientId ""); [by injection Hrun as <-|].
    destruct (String.eqb date ""); [by injection Hrun as <-|]. simpl in Hvalid.
    assert (integrity (state w') = true) as Hint'.
    { eapply integrity_push_record; [by right| |exact Hrun|done]. simpl. by rewrite Hvalid. }
    apply push_state in Hrun as (xs & ps & E & Hst). rewrite Hst in Hint' |- *.
    rewrite Ee in E. injection E as <- <-.
    apply invariants_write; try done; eauto using get_prop_array.
    simpl. by rewrite existsb_app, Ne.
  - assert (integrity (state w') = true) as Hint' by (by eapply integrity_splice_events).
    apply splice_state in Hrun as (xs & ps & E & Hst). rewrite Hst in Hint' |- *.
    rewrite Ee in E. injection E as <- <-.
    apply invariants_write; try done; eauto using get_prop_array.
    simpl. by rewrite existsb_nullish_delete.
  - injection Hrun as <-. destruct parsed as [data|]; [|done].
    simpl in Hvalid, Hfresh, Htyped.
    apply andb_true_iff in Hvalid as [Hok Hraw].
    apply andb_true_iff in Htyped as [[Hobj Hcs]%andb_true_iff Hset'].
    apply bool_decide_eq_true in Hfresh.
    destruct (migrateState_returns P {| state := data; calls := calls w |} Hok)
      as [w1 H1].
    rewrite H1 in Hfresh. cbn [snd] in Hfresh.
    pose proof (invariants_migrated P data (calls w) w1 HP Hobj Hok Hraw Hcs Hset' H1
                  Hfresh) as Hinv1.
    rewrite (replaceState_snd _ _ _ _ H1).
    destruct (apply_settings_state w1) as [-> | [Hl _]]; [done|].
    apply invariants_iff in Hinv1 as (_ & _ & _ & _ & _ & _ & Hs1).
    unfold settings_ok in Hs1.
    destruct (get_prop "settings" (state w1)) as [| |sfs]; try done.
    apply andb_true_iff in Hs1 as [_ Hlang].
    rewrite get_prop_present in Hl; [done|].
    by destruct (get_prop "language" (Obj sfs)) as [[]| |].
  - assert (w' = snd (changeTheme theme w)) as -> by (by rewrite Hrun).
    rewrite changeTheme_eq. destruct (_ || _); [done|]. cbn [snd state].
    apply invariants_settings; [done|].
    apply settings_ok_set; [by left| |done].
    simpl in Htyped. by apply String.eqb_neq, negb_true_iff.
  - assert (w' = snd (changeLanguage lang w)) as -> by (by rewrite Hrun).
    rewrite changeLanguage_eq. destruct (_ || _); [done|]. cbn [snd state].
    apply invariants_settings; [done|].
    apply settings_ok_set; [by right| |done].
    simpl in Htyped. by apply String.eqb_neq, negb_true_iff.
Qed.

Lemma invariants_preserved_witness :
  invariants
    (state (snd (run plain_host (AddClient "Cleo" "41" "64")
                   {| state := sample_store; calls := 0 |})))
  = true /\
  invariants
    (state (snd (run plain_host (ReplaceState (Some legacy_store))
                   {| state := sample_store; calls := 0 |})))
  = true /\
  invariants
    (state (snd (run plain_host (ChangeLanguage "fa")
                   {| state := sample_store; calls := 0 |})))
  = true.
Proof.
  assert (platform_ok plain_host) as HP by (intros uuid k H; discriminate H).
  split; [|split].
  - refine (invariants_preserved plain_host (AddClient "Cleo" "41" "64")
              {| state := sample_store; calls := 0 |}
              (snd (run plain_host (AddClient "Cleo" "41" "64")
                      {| state := sample_store; calls := 0 |})) HP _ _ _ _ _);
      reflexivity.
  - refine (invariants_preserved plain_host (ReplaceState (Some legacy_store))
              {| state := sample_store; calls := 0 |}
              (snd (run plain_host (ReplaceState (Some legacy_store))
                      {| state := sample_store; calls := 0 |})) HP _ _ _ _ _);
      reflexivity.
  - refine (invariants_preserved plain_host (ChangeLanguage "fa")
              {| state := sample_store; calls := 0 |}
              (snd (run plain_host (ChangeLanguage "fa")
                      {| state := sample_store; calls := 0 |})) HP _ _ _ _ _);
      reflexivity.
Defined.

(** ** The records shown for a client *)

Lemma shown_records_normal clientId w rs w' :
  clientId <> "" ->
  shown_records clientId w = (Normal rs, w') ->
  w' = w /\
  exists xs ps,
    get_prop "progress" (state w) = Arr xs ps /\ existsb nullish xs = false /\
    rs = List.filter (fun r => strict_eq (get_prop "clientId" r) (Str clientId)) xs.
Proof.
  intros Hne%String.eqb_neq. unfold shown_records. rewrite Hne.
  destruct (get_prop "progress" (state w)) as [|xs ps|]; try done.
  destruct (existsb nullish xs) eqn:En; [done|]. intros [= <- <-]. eauto 6.
Qed.

(** X14. A record entered in the progress form shows up for its client
    and for no other: when the form is submitted with a client and a date
    and returns, the records shown for that client are the ones shown
    before followed by the new record, and the records shown for any
    other client are the ones shown before. *)
Theorem shown_records_after_add (clientId date weight other : string)
    (w w' : World) (before : list value) :
  clientId <> "" -> date <> "" ->
  addProgressRecord clientId date weight w = (Normal tt, w') ->
  shown_records clientId w = (Normal before, w) ->
  shown_records clientId w'
    = (Normal (before ++ [Obj [("clientId", Prim (Str clientId));
                              ("date", Prim (Str date));
                              ("weight", Prim (Str weight))]])%list, w') /\
  (other <> clientId -> fst (shown_records other w') = fst (shown_records other w)).
Proof.
  intros Hc Hd Hrun Hshown.
  apply shown_records_normal in Hshown as (_ & xs & ps & E & Hn & ->); [|done].
  apply String.eqb_neq in Hc as Hc', Hd.
  unfold addProgressRecord in Hrun. rewrite Hc', Hd in Hrun.
  apply push_state in Hrun as (xs' & ps' & E' & Hst).
  rewrite E in E'. injection E' as <- <-.
  assert (get_prop "progress" (state w')
          = Arr (xs ++ [Obj [("clientId", Prim (Str clientId)); ("date", Prim (Str date));
                             ("weight", Prim (Str weight))]]) ps) as E2.
  { rewrite Hst. apply get_set_prop_eq. eauto using get_prop_array. }
  split.
  - unfold shown_records. rewrite Hc', E2, existsb_app, Hn. simpl.
    rewrite List.filter_app. simpl. by rewrite String.eqb_refl.
  - intros Ho. unfold shown_records. destruct (String.eqb other ""); [done|].
    rewrite E, E2, existsb_app, Hn. simpl. rewrite List.filter_app. simpl.
    apply not_eq_sym, String.eqb_neq in Ho. by rewrite Ho, app_nil_r.
Qed.

Lemma shown_records_after_add_witness :
  fst (shown_records "c2"
         (snd (addProgressRecord "c2" "2024-03-01" "71"
                 {| state := sample_store; calls := 0 |})))
  = Normal [Obj [("clientId", str "c2"); ("date", str "2024-03-01");
                 ("weight", str "71")]].
Proof.
  rewrite (proj1 (shown_records_after_add "c2" "2024-03-01" "71" "c1"
                    {| state := sample_store; calls := 0 |}
                    (snd (addProgressRecord "c2" "2024-03-01" "71"
                            {| state := sample_store; calls := 0 |}))
                    [] ltac:(discriminate) ltac:(discriminate) eq_refl eq_refl)).
  reflexivity.
Defined.

Lemma filter_complement {A} (f : A -> bool) xs :
  List.filter f (List.filter (fun x => negb (f x)) xs) = [].
Proof.
  induction xs as [|x xs IH]; simpl; [done|].
  destruct (f x) eqn:E; simpl; rewrite ?E; done.
Qed.

(** X15. After a client is deleted, no progress record is shown for its
    id: when the delete handler has returned, the list that
    [renderProgressRecords] builds for that id is empty. *)
Theorem shown_records_after_delete (clientId : string) (w w' : World) :
  deleteClient (Str clientId) w = (Normal tt, w') ->
  shown_records clientId w' = (Normal [], w').
Proof.
  intros (w1 & w2 & H1 & H2 & H3)%deleteClient_normal.
  unfold shown_records. destruct (String.eqb clientId ""); [done|].
  pose proof (filter_out_frame "events" "clientId" (Str clientId) w2 "progress"
                ltac:(done)) as F.
  rewrite H3 in F. simpl in F. rewrite F.
  apply filter_out_normal in H2 as (xs & ps & E & Hn & ->). simpl.
  rewrite get_set_prop_eq by eauto using get_prop_array.
  by rewrite existsb_nullish_filter, filter_complement.
Qed.

Lemma shown_records_after_delete_witness :
  shown_records "c1"
    (snd (deleteClient (Str "c1") {| state := sample_store; calls := 0 |}))
  = (Normal [], snd (deleteClient (Str "c1") {| state := sample_store; calls := 0 |})).
Proof.
  exact (shown_records_after_delete "c1" {| state := sample_store; calls := 0 |}
           (snd (deleteClient (Str "c1") {| state := sample_store; calls := 0 |}))
           eq_refl).
Defined.

(** ** Saving and loading *)

Lemma loadState_document P data w :
  loadState P (Document data) w
  = (migrateState P ;;; apply_settings) {| state := data; calls := calls w |}.
Proof. reflexivity. Qed.

(** X16. What is saved is what is loaded: when the store satisfies the
    invariants, [loadState] on what [saveState] wrote completes, generates
    no identifier, and gives a store that saves to the same text and has
    the same client ids; it is the saved store itself when that store holds
    nothing that JSON does not carry. *)
Theorem save_then_load (P : Platform) (w w0 : World) :
  invariants (state w) = true ->
  exists w',
    loadState P (saveState w) w0 = (Normal tt, w') /\
    calls w' = calls w0 /\
    saveState w' = saveState w /\
    client_ids (state w') = client_ids (state w) /\
    (to_json (state w) = Some (state w) -> state w' = state w).
Proof.
  destruct w as [st k]. cbn [state calls]. intros Hinv.
  destruct st as [| |fs]; try done.
  destruct (restore_exported P fs (calls w0) Hinv) as [Hrun Hids].
  assert (saveState {| state := Obj fs; calls := k |}
          = Document (Obj (json_fields to_json fs))) as -> by reflexivity.
  rewrite loadState_document. unfold replaceState in Hrun. cbn [calls] in Hrun.
  destruct ((migrateState P ;;; apply_settings) _) as [[[]|] w1]; [|done].
  injection Hrun as ->. eexists. split; [done|]. cbn [state calls].
  split; [done|]. split.
  - assert (to_json (Obj (json_fields to_json fs))
            = Some (Obj (json_fields to_json fs))) as Hst
      by (by apply to_json_again with (Obj fs)).
    unfold saveState. cbn [state]. by rewrite Hst.
  - split; [done|]. intros H. injection H as H. f_equal. exact H.
Qed.

Lemma save_then_load_witness :
  loadState plain_host (saveState {| state := sample_store; calls := 3 |})
    {| state := initial_state; calls := 0 |}
  = (Normal tt, {| state := sample_store; calls := 0 |}).
Proof.
  destruct (save_then_load plain_host {| state := sample_store; calls := 3 |}
              {| state := initial_state; calls := 0 |} eq_refl)
    as (w' & Hrun & Hcalls & _ & _ & Hsame).
  rewrite Hrun. f_equal. destruct w' as [st k]. simpl in *.
  by rewrite Hcalls, (Hsame eq_refl).
Defined.

(** ** The outcome of a restore *)

(** X17. The restore handler reaches [saveState()] exactly on the parsed
    documents whose [clients], [progress] and [events] are arrays without
    [null] entries, whose [settings] is neither missing nor [null], and
    whose theme and language convert to strings; on every other document an
    exception on the way takes it to the invalid-backup notice and nothing
    is saved.  (What [renderAll()] does after [saveState()] is no part of
    the statement: a throw there shows the notice over a saved document.) *)
Theorem replaceState_saved_iff (P : Platform) (data : value) (w : World) :
  fst (replaceState P (Some data) w) = Saved <-> restorable data = true.
Proof.
  unfold restorable, well_shaped.
  pose proof (migrateState_completed P {| state := data; calls := calls w |}) as Hc.
  pose proof (migrateState_frame P {| state := data; calls := calls w |} "settings"
                ltac:(done) ltac:(done) ltac:(done)) as Hs.
  unfold completed in Hc. cbn [state] in Hc, Hs.
  destruct (migrateState P {| state := data; calls := calls w |}) as [[[]|] w1] eqn:Hrun;
    cbn [fst snd] in Hc, Hs; symmetry in Hc; rewrite Hc.
  - destruct (nullish (get_prop "settings" data)) eqn:Hn.
    + unfold replaceState, bind. rewrite Hrun, apply_settings_throws by by rewrite Hs.
      done.
    + assert (nullish (state w1) = false) as Hw1.
      { destruct (migrateState_run P {| state := data; calls := calls w |})
          as (cs' & m & k' & _ & Hrun'); [done|].
        rewrite Hrun in Hrun'. injection Hrun' as ->. cbn [state].
        rewrite !nullish_set_prop.
        unfold collections_ok, array_ok in Hc.
        destruct data as [[]| |]; done. }
      unfold replaceState, bind.
      rewrite Hrun, apply_settings_eq, Hs by (by rewrite ?Hs).
      destruct (stringifies (get_prop "theme" _)); [|done].
      by destruct (stringifies (get_prop "language" _)).
  - unfold replaceState, bind. by rewrite Hrun.
Qed.

Lemma replaceState_saved_iff_witness :
  fst (replaceState plain_host (Some legacy_store) {| state := initial_state; calls := 0 |})
  = Saved /\
  fst (replaceState plain_host (Some unreadable_theme_doc)
         {| state := initial_state; calls := 0 |})
  <> Saved.
Proof.
  split.
  - apply (proj2 (replaceState_saved_iff plain_host legacy_store
                    {| state := initial_state; calls := 0 |})).
    reflexivity.
  - intros H.
    apply (proj1 (replaceState_saved_iff plain_host unreadable_theme_doc
                    {| state := initial_state; calls := 0 |})) in H.
    discriminate H.
Defined.

(** ** Theme and language *)

(** X18. Theme and language are stored independently: on a store whose
    settings is an object, choosing a theme and then a language returns;
    afterwards the settings hold that theme and that language, every other
    property of the settings and every other property of the store is what
    it was, and no identifier is generated. *)
Theorem settings_written (theme lang : string) (w : World) (sfs : fields) :
  get_prop "settings" (state w) = Obj sfs ->
  exists w',
    (changeTheme theme ;;; changeLanguage lang) w = (Normal tt, w') /\
    get_prop "theme" (get_prop "settings" (state w')) = Str theme /\
    get_prop "language" (get_prop "settings" (state w')) = Str lang /\
    (forall k, k <> "theme" -> k <> "language" ->
       get_prop k (get_prop "settings" (state w')) = assoc_get k sfs) /\
    (forall f, f <> "settings" -> get_prop f (state w') = get_prop f (state w)) /\
    calls w' = calls w.
Proof.
  intros Hs.
  assert (has_prop "settings" (state w) = true) as Hhas.
  { apply get_prop_present. by rewrite Hs. }
  assert (nullish (state w) = false) as Hn by (by destruct (state w) as [[]| |]).
  eexists. split.
  { unfold bind. rewrite changeTheme_eq, Hn, Hs. cbn [nullish orb].
    rewrite changeLanguage_eq. cbn [state calls set_prop].
    rewrite nullish_set_prop, Hn, get_set_prop_eq by done. reflexivity. }
  cbn [state calls]. rewrite set_set_prop, get_set_prop_eq by done. simpl.
  repeat split.
  - by rewrite assoc_get_set_ne, assoc_get_set_eq.
  - by rewrite assoc_get_set_eq.
  - intros k H1 H2. by rewrite !assoc_get_set_ne.
  - intros f Hf. destruct (state w); simpl; try done; by apply assoc_get_set_ne.
Qed.

Lemma settings_written_witness :
  get_prop "settings"
    (state (snd ((changeTheme "dark" ;;; changeLanguage "fa")
                   {| state := sample_store; calls := 0 |})))
  = Obj [("theme", str "dark"); ("language", str "fa")].
Proof.
  destruct (settings_written "dark" "fa" {| state := sample_store; calls := 0 |}
              [("theme", str "light"); ("language", str "en")] eq_refl)
    as (w' & Hrun & _).
  rewrite Hrun. vm_compute in Hrun. injection Hrun as <-. reflexivity.
Defined.

(** X19. When the store has no settings object, a change of theme or of
    language is not stored: with [settings] missing or [null] the handler
    throws and the store is untouched; with [settings] a number, a string
    or a boolean the handler returns and the store is still what it
    was. *)
Theorem settings_not_written (theme lang : string) (w : World) :
  (nullish (get_prop "settings" (state w)) = true ->
     changeTheme theme w = (TypeError, w) /\ changeLanguage lang w = (TypeError, w)) /\
  (forall p, get_prop "settings" (state w) = Prim p -> nullish (Prim p) = false ->
     changeTheme theme w = (Normal tt, w) /\ changeLanguage lang w = (Normal tt, w)).
Proof.
  split.
  - intros Hn. by rewrite changeTheme_eq, changeLanguage_eq, Hn, orb_true_r.
  - intros p Hs Hn.
    assert (has_prop "settings" (state w) = true) as Hhas.
    { apply get_prop_present. rewrite Hs. by destruct p. }
    assert (nullish (state w) = false) as Hw by (by destruct (state w) as [[]| |]).
    rewrite changeTheme_eq, changeLanguage_eq, Hs, Hn, Hw. cbn [orb set_prop].
    rewrite <- Hs, set_prop_same by done. by destruct w.
Qed.

Lemma settings_not_written_witness :
  changeTheme "dark" {| state := no_settings_doc; calls := 0 |}
  = (TypeError, {| state := no_settings_doc; calls := 0 |}).
Proof.
  refine (proj1 (proj1 (settings_not_written "dark" "fa"
                          {| state := no_settings_doc; calls := 0 |}) _)).
  reflexivity.
Defined.

(** ** The client shown for an event *)

Lemma find_client_found p cs c0 :
  existsb nullish cs = false ->
  c0 ∈ cs -> strict_eq (get_prop "id" c0) p = true ->
  exists c, find_client p cs = Normal (Some c) /\ c ∈ cs /\
            strict_eq (get_prop "id" c) p = true.
Proof.
  induction cs as [|c cs IH]; simpl.
  - intros _ H. by apply elem_of_nil in H.
  - intros [-> Hn]%orb_false_iff Hin Heq.
    destruct (strict_eq (get_prop "id" c) p) eqn:E.
    + exists c. split; [done|]. split; [apply list_elem_of_here|done].
    + apply elem_of_cons in Hin as [->|Hin]; [congruence|].
      destruct (IH Hn Hin Heq) as (c' & -> & Hc' & He). exists c'.
      split; [done|]. split; [by apply list_elem_of_further|done].
Qed.

Lemma strict_eq_string v s : strict_eq v (Str s) = true -> v = Str s.
Proof.
  destruct v as [[| | | |t]| |]; simpl; try done. by intros ->%String.eqb_eq.
Qed.

(** X20. With referential integrity every event has a client to show: on a
    store whose collections are arrays and whose records all refer to a
    client, the lookup that [renderEvents] makes for an event finds the
    first client whose [id] is the event's [clientId], and shows its name
    (or the empty string when the name is falsy). *)
Theorem event_client_found (w : World) (e : value) :
  collections_ok (state w) = true ->
  integrity (state w) = true ->
  e ∈ collection "events" (state w) ->
  exists s c,
    get_prop "clientId" e = Str s /\
    c ∈ collection "clients" (state w) /\
    get_prop "id" c = Str s /\
    client_name (Str s) w
    = (Normal (if truthy (get_prop "name" c) then get_prop "name" c else Prim (Str "")),
       w).
Proof.
  intros Hok Hint He.
  pose proof (integrity_elim _ _ Hint (or_intror He)) as Hrec.
  unfold record_ok in Hrec. destruct e as [| |ps]; try done.
  destruct (assoc_get "clientId" ps) as [[| | | |s]| |] eqn:Ecid; try done.
  apply andb_true_iff in Hrec as [Hs%bool_decide_eq_true _].
  apply elem_of_client_ids in Hs as (c0 & Hc0 & Hid0).
  unfold collections_ok in Hok. rewrite !andb_true_iff in Hok.
  destruct Hok as [[Hc _] _].
  destruct (array_ok_collection _ _ Hc) as (cps & Ec & Nc).
  destruct (find_client_found (Str s) _ c0 Nc Hc0) as (c & Hfind & Hin & Heq).
  { by rewrite (string_id_get _ _ Hid0), strict_eq_refl. }
  exists s, c. split; [done|]. split; [done|].
  split; [by apply strict_eq_string|].
  unfold client_name. by rewrite Ec, Hfind.
Qed.

Lemma event_client_found_witness :
  exists s c,
    get_prop "clientId"
      (Obj [("clientId", str "c2"); ("date", str "2024-02-01"); ("note", str "intro")])
    = Str s /\
    c ∈ collection "clients" (state {| state := sample_store; calls := 0 |}) /\
    get_prop "id" c = Str s /\
    client_name (Str s) {| state := sample_store; calls := 0 |}
    = (Normal (if truthy (get_prop "name" c) then get_prop "name" c else Prim (Str "")),
       {| state := sample_store; calls := 0 |}).
Proof.
  apply (event_client_found {| state := sample_store; calls := 0 |}
           (Obj [("clientId", str "c2"); ("date", str "2024-02-01");
                 ("note", str "intro")])).
  - reflexivity.
  - reflexivity.
  - apply list_elem_of_here.
Defined.

(** ** The earlier snapshot: references by position *)

Lemma number_of_index_eqb (i j : nat) :
  number_eqb (number_of_index i) (number_of_index j) = true <-> i = j.
Proof.
  destruct i as [|i], j as [|j]; simpl; try done.
  rewrite Pos.mul_1_r, Pos.eqb_eq. split.
  - by intros ->%SuccNat2Pos.inj.
  - by intros [= ->].
Qed.

Lemma index_of_number_of_index (i : nat) : index_of_number (number_of_index i) = Some i.
Proof.
  destruct i as [|i]; simpl; [done|].
  by rewrite Z.pow_0_r, Z.mul_1_r, Z2Nat.inj_pos, SuccNat2Pos.id_succ.
Qed.

Lemma legacy_deleteClient_collections (idx : nat) (w w' : World) :
  legacy_deleteClient idx w = (Normal tt, w') ->
  collection "clients" (state w') = delete idx (collection "clients" (state w)) /\
  forall field, field = "progress" \/ field = "events" ->
    collection field (state w')
    = List.filter
        (fun r => negb (strict_eq (get_prop "clientIndex" r) (Num (number_of_index idx))))
        (collection field (state w)).
Proof.
  unfold legacy_deleteClient.
  intros ([] & w1 & H1 & ([] & w2 & H2 & H3)%bind_normal)%bind_normal.
  destruct (splice_normal _ _ _ _ H1) as [Ec1 F1].
  pose proof (filter_out_collection_ne "progress" "clientIndex"
                (Num (number_of_index idx)) w1 "clients" ltac:(done)) as Fc2.
  pose proof (filter_out_collection_ne "progress" "clientIndex"
                (Num (number_of_index idx)) w1 "events" ltac:(done)) as Fe2.
  pose proof (filter_out_collection_ne "events" "clientIndex"
                (Num (number_of_index idx)) w2 "clients" ltac:(done)) as Fc3.
  pose proof (filter_out_collection_ne "events" "clientIndex"
                (Num (number_of_index idx)) w2 "progress" ltac:(done)) as Fp3.
  rewrite H2 in Fc2, Fe2. rewrite H3 in Fc3, Fp3. simpl in *.
  split; [by rewrite Fc3, Fc2|].
  intros field [-> | ->].
  - by rewrite Fp3, (filter_out_collection _ _ _ _ _ H2), F1.
  - by rewrite (filter_out_collection _ _ _ _ _ H3), Fe2, F1.
Qed.

(** X22. In the earlier snapshot a record refers to its client by position,
    and deleting a client moves the references of the later ones: when the
    delete handler of the client at position [idx] returns, a record whose
    [clientIndex] is [idx] is gone and a record with any other position [j]
    is kept as it is; below [idx] position [j] still holds the client it
    held, but from [idx] on it holds the client that was at [j + 1], so a
    kept record of a later client now denotes that client's successor. *)
Theorem legacy_delete_shifts (idx j : nat) (w w' : World) (field : string) (r : value) :
  field = "progress" \/ field = "events" ->
  legacy_deleteClient idx w = (Normal tt, w') ->
  r ∈ collection field (state w) ->
  get_prop "clientIndex" r = Num (number_of_index j) ->
  (r ∈ collection field (state w') <-> j <> idx) /\
  (j < idx ->
     collection "clients" (state w') !! j = collection "clients" (state w) !! j) /\
  (idx <= j ->
     collection "clients" (state w') !! j = collection "clients" (state w) !! S j).
Proof.
  intros Hfield Hrun Hr Hidx.
  destruct (legacy_deleteClient_collections _ _ _ Hrun) as [Ec Er].
  rewrite (Er field Hfield), Ec, elem_of_bool_filter, Hidx. cbn [strict_eq].
  split; [|split].
  - rewrite negb_true_iff. split.
    + intros [_ Hne] ->. by rewrite (proj2 (number_of_index_eqb idx idx)) in Hne.
    + intros Hne. split; [done|]. apply not_true_is_false.
      by rewrite number_of_index_eqb.
  - apply list_lookup_delete_lt.
  - apply list_lookup_delete_ge.
Qed.

Lemma legacy_delete_shifts_witness :
  let w := {| state := legacy_store; calls := 0 |} in
  let w' := snd (legacy_deleteClient 0 w) in
  legacy_record ∈ collection "progress" (state w') /\
  collection "clients" (state w) !! 1 = Some (Obj [("name", str "B")]) /\
  collection "clients" (state w') !! 1 = None.
Proof.
  intros w w'.
  destruct (legacy_delete_shifts 0 1 w w' "progress" legacy_record)
    as (Hkept & _ & Hshift).
  - left. reflexivity.
  - reflexivity.
  - apply list_elem_of_here.
  - reflexivity.
  - split; [apply Hkept; lia|]. split; [reflexivity|].
    rewrite Hshift by lia. reflexivity.
Defined.

(** X23. A record written by the progress form of the earlier snapshot is
    one that migration resolves: the form stores [{clientIndex, date,
    weight}] with the position of the selected client, and on a host whose
    UUIDs are not empty a migration of the resulting store that completes
    leaves the record [{date, weight, clientId}] whose [clientId] is the
    [id] of the client at that position. *)
Theorem legacy_form_record_migrated (P : Platform) (i : nat) (date weight : string)
    (w w1 w' : World) (c : value) :
  platform_ok P ->
  date <> "" ->
  collection "clients" (state w) !! i = Some c ->
  is_object c = true ->
  legacy_addProgressRecord (Some i) date weight w = (Normal tt, w1) ->
  migrateState P w1 = (Normal tt, w') ->
  exists c',
    collection "clients" (state w') !! i = Some c' /\
    truthy (get_prop "id" c') = true /\
    Obj [("date", Prim (Str date)); ("weight", Prim (Str weight));
         ("clientId", get_prop "id" c')]
      ∈ collection "progress" (state w').
Proof.
  intros HP Hdate Hc Hobj Hadd Hrun.
  unfold legacy_addProgressRecord in Hadd.
  apply String.eqb_neq in Hdate. rewrite Hdate in Hadd.
  destruct (push_normal _ _ _ _ Hadd) as [Ep F].
  set (r := Obj [("clientIndex", Prim (Num (number_of_index i)));
                 ("date", Prim (Str date)); ("weight", Prim (Str weight))]) in *.
  destruct (legacy_resolution P w1 w' "progress" r c (number_of_index i) i)
    as (c' & Hc' & _ & Hid & Hin); try done.
  - by left.
  - rewrite Ep. apply elem_of_app. right. apply list_elem_of_here.
  - apply index_of_number_of_index.
  - by rewrite F.
  - by exists c'.
Qed.

Lemma legacy_form_record_migrated_witness :
  let w := {| state := store_with [Obj [("name", str "A")]; Obj [("id", str "c2")]] [] [];
              calls := 0 |} in
  Obj [("date", str "2024-03-01"); ("weight", str "70"); ("clientId", str "c2")]
    ∈ collection "progress"
        (state (snd (migrateState plain_host
                       (snd (legacy_addProgressRecord (Some 1) "2024-03-01" "70" w))))).
Proof.
  intros w.
  destruct (legacy_form_record_migrated plain_host 1 "2024-03-01" "70" w
              (snd (legacy_addProgressRecord (Some 1) "2024-03-01" "70" w))
              (snd (migrateState plain_host
                      (snd (legacy_addProgressRecord (Some 1) "2024-03-01" "70" w))))
              (Obj [("id", str "c2")]))
    as (c' & Hc' & _ & Hin).
  - intros uuid k H. discriminate H.
  - discriminate.
  - reflexivity.
  - reflexivity.
  - reflexivity.
  - reflexivity.
  - vm_compute in Hc'. injection Hc' as <-. exact Hin.
Defined.

(** ** What a handler leaves alone *)

Lemma push_frame field x w k :
  k <> field -> get_prop k (state (snd (push field x w))) = get_prop k (state w).
Proof.
  intros Hne. unfold push, assign.
  destruct (get_prop field (state w)); simpl; try done. by apply get_set_prop_ne.
Qed.

Lemma push_calls field x w : calls (snd (push field x w)) = calls w.
Proof. unfold push, assign. by destruct (get_prop field (state w)). Qed.

Lemma splice_frame field idx w k :
  k <> field -> get_prop k (state (snd (splice field idx w))) = get_prop k (state w).
Proof.
  intros Hne. unfold splice, assign.
  destruct (get_prop field (state w)); simpl; try done. by apply get_set_prop_ne.
Qed.

Lemma splice_calls field idx w : calls (snd (splice field idx w)) = calls w.
Proof. unfold splice, assign. by destruct (get_prop field (state w)). Qed.

Lemma filter_out_calls field k p w : calls (snd (filter_out field k p w)) = calls w.
Proof.
  unfold filter_out. destruct (get_prop field (state w)); simpl; try done.
  by destruct (existsb nullish elems).
Qed.

Lemma deleteClient_calls p w : calls (snd (deleteClient p w)) = calls w.
Proof.
  unfold deleteClient, bind.
  pose proof (filter_out_calls "clients" "id" p w) as F1.
  destruct (filter_out "clients" "id" p w) as [[[]|] w1]; simpl in F1; [|done].
  pose proof (filter_out_calls "progress" "clientId" p w1) as F2.
  destruct (filter_out "progress" "clientId" p w1) as [[[]|] w2]; simpl in F2;
    [|by rewrite <- F1].
  rewrite (filter_out_calls "events" "clientId" p w2). congruence.
Qed.

(** X24. Every handler but a restore that parses its file writes its own
    part of the store and nothing else: whether the call returns or throws,
    every property of the store outside the part of that call ([clients]
    for the client form; [clients], [progress] and [events] for the
    deletion of a client; [settings] for the theme and the language
    selects; nothing for a restore whose file does not parse; the one list
    of the form or delete button otherwise) is what it was.  Of these
    calls only the client form generates an identifier, at most one.  A
    restore that parses its file has no such part: it replaces the store
    as a whole. *)
Theorem handler_frame (P : Platform) (m : mutation) (w : World) (k : string)
    (part : list string) :
  writes m = Some part ->
  k ∉ part ->
  get_prop k (state (snd (run P m w))) = get_prop k (state w) /\
  calls w <= calls (snd (run P m w)) <= S (calls w) /\
  (generates_no_id m = true -> calls (snd (run P m w)) = calls w).
Proof.
  intros Hpart Hk. split.
  { destruct m; simpl in *; try injection Hpart as <-.
    - unfold addClient. destruct (String.eqb name ""); [done|].
      destruct (nullish (get_prop "clients" (state w))); [done|].
      rewrite push_frame by set_solver. done.
    - apply deleteClient_frame_field; set_solver.
    - unfold addProgram. destruct (String.eqb name ""); [done|].
      apply push_frame. set_solver.
    - apply splice_frame. set_solver.
    - unfold addExercise. destruct (String.eqb name ""); [done|].
      apply push_frame. set_solver.
    - apply splice_frame. set_solver.
    - unfold addProgressRecord.
      destruct (String.eqb clientId ""); [done|]. destruct (String.eqb date ""); [done|].
      apply push_frame. set_solver.
    - unfold addEvent.
      destruct (String.eqb clientId ""); [done|]. destruct (String.eqb date ""); [done|].
      apply push_frame. set_solver.
    - apply splice_frame. set_solver.
    - by destruct parsed.
    - apply changeTheme_frame. set_solver.
    - apply changeLanguage_frame. set_solver. }
  assert (generates_no_id m = true -> calls (snd (run P m w)) = calls w) as Hcalls.
  { destruct m; simpl; try done; intros Hgen.
    - apply deleteClient_calls.
    - unfold addProgram. destruct (String.eqb name ""); [done|].
      apply push_calls.
    - apply splice_calls.
    - unfold addExercise. destruct (String.eqb name ""); [done|].
      apply push_calls.
    - apply splice_calls.
    - unfold addProgressRecord.
      destruct (String.eqb clientId ""); [done|]. destruct (String.eqb date ""); [done|].
      apply push_calls.
    - unfold addEvent.
      destruct (String.eqb clientId ""); [done|]. destruct (String.eqb date ""); [done|].
      apply push_calls.
    - apply splice_calls.
    - by destruct parsed.
    - rewrite changeTheme_eq. by destruct (_ || _).
    - rewrite changeLanguage_eq. by destruct (_ || _). }
  split; [|done].
  destruct (generates_no_id m) eqn:E; [rewrite Hcalls by done; lia|].
  destruct m as [name age weight| | | | | | | | |[data|]| |]; try done. simpl.
  unfold addClient.
  destruct (String.eqb name ""); [simpl; lia|].
  destruct (nullish (get_prop "clients" (state w))); [simpl; lia|].
  rewrite push_calls. simpl. lia.
Qed.

Lemma handler_frame_witness :
  get_prop "programs"
    (state (snd (run plain_host (DeleteClient (Str "c1"))
                   {| state := sample_store; calls := 0 |})))
  = get_prop "programs" sample_store /\
  get_prop "clients"
    (state (snd (run plain_host (ChangeTheme "dark")
                   {| state := sample_store; calls := 0 |})))
  = get_prop "clients" sample_store.
Proof.
  split.
  - refine (proj1 (handler_frame plain_host (DeleteClient (Str "c1"))
                     {| state := sample_store; calls := 0 |} "programs"
                     ["clients"; "progress"; "events"] eq_refl _)).
    rewrite !not_elem_of_cons. repeat split; try discriminate.
    apply not_elem_of_nil.
  - refine (proj1 (handler_frame plain_host (ChangeTheme "dark")
                     {| state := sample_store; calls := 0 |} "clients"
                     ["settings"] eq_refl _)).
    rewrite !not_elem_of_cons. repeat split; try discriminate.
    apply not_elem_of_nil.
Defined.
